(** * LearnIn30Days backend: the completion endpoint

    A shallow embedding of [complete_day] (src/main.py, lines 196-259) and of
    the documents it reads and writes (src/schemas.py), with the properties of
    the streak / points / progress state machine.

    Conventions of the embedding.
    - Python [int] is [Z].
    - A [datetime.date] is identified by its proleptic Gregorian ordinal, so
      that [(a - b).days] is the difference of the ordinals.
    - A MongoDB collection is the list of its documents in insertion order.
      Documents are never deleted by this backend, and an [ObjectId] is only
      ever used to find a document again: the identifier of a document is its
      position in the list.  Identifiers are unique by construction.
    - A key that the code reads with [doc.get(key, default)] is an [option]
      field: [None] is the absent key.
    - The endpoint runs in a state-and-exception monad over the store; the
      state also records the trace of write operations sent to the store. *)

From Stdlib Require Import ZArith Lia.
From stdpp Require Import base decidable option list sorting strings gmap.
From stdpp Require Import pretty.

Local Open Scope Z_scope.

(** ** Dates and timestamps *)

Record date : Type := mkdate { toordinal : Z }.

Global Instance date_eq_dec : EqDecision date.
Proof. solve_decision. Defined.

(** [(a - b).days] *)
Definition days (a b : date) : Z := toordinal a - toordinal b.

(** [datetime.now(timezone.utc)], as a number of microseconds. *)
Definition datetime : Type := Z.

(** What a [last_completed_date] key can hold when it is not [None]: the
    string written by [today.isoformat()] (line 246), or a [date] object.
    [date.fromisoformat] is the inverse of [date.isoformat]: the string is
    kept as the date it denotes. *)
Inductive date_value : Type :=
  | IsoString (d : date)
  | DateObject (d : date).

Global Instance date_value_eq_dec : EqDecision date_value.
Proof. solve_decision. Defined.

Definition isoformat (d : date) : date_value := IsoString d.

(** Line 217:
    [date.fromisoformat(s) if isinstance(s, str) else s]. *)
Definition as_date (v : option date_value) : option date :=
  match v with
  | Some (IsoString d) => Some d
  | Some (DateObject d) => Some d
  | None => None
  end.

(** ** Documents (src/schemas.py) *)

Record user_doc : Type := mk_user {
  name : string;
  email : string;
  avatar_url : option string;
  points : option Z;
  streak : option Z;
  longest_streak : option Z;
  badges : list string;
  is_active : bool;
  user_updated_at : option datetime
}.

Record progress_doc : Type := mk_progress {
  user_email : string;
  challenge_slug : string;
  current_day : option Z;
  completed_days : option (list Z);
  last_completed_date : option date_value;
  progress_updated_at : option datetime
}.

(** [Progress(user_email=..., challenge_slug=...)] with the defaults of the
    schema: [current_day = 1], no completed day, no completion date. *)
Definition Progress (e slug : string) : progress_doc :=
  {| user_email := e; challenge_slug := slug;
     current_day := Some 1; completed_days := Some [];
     last_completed_date := None; progress_updated_at := None |}.

(** [User(name=..., email=..., avatar_url=...)] with the defaults of the
    schema. *)
Definition User (n e : string) (a : option string) : user_doc :=
  {| name := n; email := e; avatar_url := a;
     points := Some 0; streak := Some 0; longest_streak := Some 0;
     badges := []; is_active := true; user_updated_at := None |}.

(** [doc.get(key, dflt)] *)
Definition get {A} (field : option A) (dflt : A) : A := default dflt field.

(** ** The request *)

Module CompletePayload.
Record t : Type := mk { user_email : string; challenge_slug : string; day : Z }.
End CompletePayload.

(** The clock readings of one request: [date.today()] (line 215) and the two
    calls of [_now()] (lines 247 and 254). *)
Record clock : Type := mk_clock {
  date_today : date;
  now_progress : datetime;
  now_user : datetime
}.

(** ** The store *)

Record database : Type := mk_db {
  users : list user_doc;
  prog_col : list progress_doc
}.

(** A write operation sent to the store: the collection and the identifier
    of the document written. *)
Inductive write : Type :=
  | InsertOne (collection : string) (id : nat)
  | UpdateOne (collection : string) (id : nat).

Global Instance write_eq_dec : EqDecision write.
Proof. solve_decision. Defined.

(** [db] is [None] when the store is not configured. *)
Record world : Type := mk_world {
  db : option database;
  writes : list write
}.

Record HTTPException : Type := mk_exn { status_code : Z; detail : string }.

Inductive result (A : Type) : Type :=
  | Return (a : A)
  | Raise (e : HTTPException).
Arguments Return {A} a.
Arguments Raise {A} e.

Definition M (A : Type) : Type := world -> result A * world.

Definition ret {A} (a : A) : M A := fun w => (Return a, w).
Definition raise {A} (e : HTTPException) : M A := fun w => (Raise e, w).
Definition bind {A B} (m : M A) (k : A -> M B) : M B :=
  fun w => match m w with
           | (Return a, w') => k a w'
           | (Raise e, w') => (Raise e, w')
           end.

Declare Scope store_scope.
Delimit Scope store_scope with store.
Notation "'do' x <- m ; k" := (bind m (fun x => k))
  (at level 10, x name, m at level 100, k at level 200) : store_scope.
Notation "m ;; k" := (bind m (fun _ => k))
  (at level 100, k at level 200, right associativity) : store_scope.
Local Open Scope store_scope.

(** A collection handle: its name and its place in the database. *)
Record handle (D : Type) : Type := mk_handle {
  collection : string;
  docs : database -> list D;
  with_docs : list D -> database -> database
}.
Arguments collection {D} h.
Arguments docs {D} h d.
Arguments with_docs {D} h l d.

Definition user_collection : handle user_doc :=
  {| collection := "user"; docs := users;
     with_docs := fun l d => {| users := l; prog_col := prog_col d |} |}.

Definition progress_collection : handle progress_doc :=
  {| collection := "progress"; docs := prog_col;
     with_docs := fun l d => {| users := users d; prog_col := l |} |}.

Definition not_configured : HTTPException :=
  {| status_code := 500; detail := "Database not configured" |}.

(** Lines 62-65. *)
Definition _collection {D} (h : handle D) : M (handle D) :=
  fun w => match db w with
           | None => (Raise not_configured, w)
           | Some _ => (Return h, w)
           end.

(** [coll.find_one(filter)]: the first document, in insertion order, that
    satisfies the filter, with its identifier. *)
Definition find_one {D} (h : handle D) (P : D -> Prop)
    `{!forall x, Decision (P x)} : M (option (nat * D)) :=
  fun w => match db w with
           | None => (Raise not_configured, w)
           | Some d => (Return (list_find P (docs h d)), w)
           end.

(** [coll.find_one({"_id": id})] *)
Definition find_one_by_id {D} (h : handle D) (id : nat) : M (option (nat * D)) :=
  fun w => match db w with
           | None => (Raise not_configured, w)
           | Some d => (Return (pair id <$> docs h d !! id), w)
           end.

(** [coll.update_one({"_id": id}, {"$set": ...})]: the fields are set on the
    document with that identifier; nothing changes when there is none. *)
Definition update_one {D} (h : handle D) (id : nat) (set : D -> D) : M unit :=
  fun w => match db w with
           | None => (Raise not_configured, w)
           | Some d =>
               (Return tt,
                {| db := Some (with_docs h (alter set id (docs h d)) d);
                   writes := writes w ++ [UpdateOne (collection h) id] |})
           end.

(** Modelled from the spec: [create_document] of the module [database], which
    is not among the sources.  The store "supports find-by-filter, insert, and
    field-level update", and the Progress record is "lazily created": the
    document is inserted in the named collection, and its new identifier is
    returned. *)
Definition create_document {D} (h : handle D) (doc : D) : M nat :=
  fun w => match db w with
           | None => (Raise not_configured, w)
           | Some d =>
               let id := length (docs h d) in
               (Return id,
                {| db := Some (with_docs h (docs h d ++ [doc]) d);
                   writes := writes w ++ [InsertOne (collection h) id] |})
           end.

(** ** The computations of [complete_day] *)

(** Lines 211-212: [if payload.day not in completed: completed.append(...)]. *)
Definition append_day (day : Z) (completed : list Z) : list Z :=
  if decide (day ∈ completed) then completed else completed ++ [day].

(** [sorted(completed)] on integers. *)
Definition sorted (l : list Z) : list Z := merge_sort Z.le l.

(** Lines 221-231. *)
Definition streak_logic (today : date) (last_date : option date) (streak : Z) : Z :=
  match last_date with
  | None => 1
  | Some last =>
      let delta := days today last in
      if decide (delta = 1) then streak + 1
      else if decide (delta = 0) then Z.max 1 streak
      else 1
  end.

(** Lines 235-237. *)
Definition points_logic (points streak : Z) : Z :=
  let points := points + 10 in
  if decide (streak `mod` 5 = 0) then points + 5 else points.

(** The ["$set"] of lines 243-248. *)
Definition set_progress (completed : list Z) (current : Z) (today : date)
    (now : datetime) (p : progress_doc) : progress_doc :=
  {| user_email := user_email p; challenge_slug := challenge_slug p;
     current_day := Some current; completed_days := Some completed;
     last_completed_date := Some (isoformat today);
     progress_updated_at := Some now |}.

(** The ["$set"] of line 254. *)
Definition set_user (streak longest points : Z) (now : datetime)
    (u : user_doc) : user_doc :=
  {| name := name u; email := email u; avatar_url := avatar_url u;
     points := Some points; streak := Some streak;
     longest_streak := Some longest;
     badges := badges u; is_active := is_active u;
     user_updated_at := Some now |}.

(** [_sanitize]: the document with its identifier under the key ["id"]. *)
Record sanitized (D : Type) : Type := mk_sanitized { id : nat; fields : D }.
Arguments mk_sanitized {D} id fields.
Arguments id {D} s.
Arguments fields {D} s.

Definition _sanitize {D} (doc : option (nat * D)) : option (sanitized D) :=
  match doc with
  | None => None
  | Some (i, d) => Some {| id := i; fields := d |}
  end.

Record response : Type := mk_response {
  ok : bool;
  user : option (sanitized user_doc);
  progress : option (sanitized progress_doc)
}.

Definition user_not_found : HTTPException :=
  {| status_code := 404; detail := "User not found" |}.

(** What the server answers when a handler fails with an exception that is
    not an [HTTPException] (here: [prog] is [None] at line 210). *)
Definition internal_server_error : HTTPException :=
  {| status_code := 500; detail := "Internal Server Error" |}.

Definition by_email (e : string) (u : user_doc) : Prop := email u = e.
Definition by_pair (e slug : string) (p : progress_doc) : Prop :=
  user_email p = e /\ challenge_slug p = slug.

Global Instance by_email_dec e u : Decision (by_email e u).
Proof. unfold by_email. apply _. Defined.
Global Instance by_pair_dec e s p : Decision (by_pair e s p).
Proof. unfold by_pair. apply _. Defined.

(** Lines 196-259. *)
Definition complete_day (payload : CompletePayload.t) (clk : clock) : M response :=
  let user_email := CompletePayload.user_email payload in
  let challenge_slug := CompletePayload.challenge_slug payload in
  let day := CompletePayload.day payload in
  do users <- _collection user_collection;
  do prog_col <- _collection progress_collection;
  do user <- find_one users (by_email user_email);
  match user with
  | None => raise user_not_found
  | Some (user_id, user) =>
      do prog <- find_one prog_col (by_pair user_email challenge_slug);
      do prog <- match prog with
                 | Some p => ret (Some p)
                 | None =>
                     create_document prog_col (Progress user_email challenge_slug) ;;
                     find_one prog_col (by_pair user_email challenge_slug)
                 end;
      match prog with
      | None => raise internal_server_error
      | Some (prog_id, prog) =>
          let completed := append_day day (get (completed_days prog) []) in
          (* Streak logic *)
          let today := date_today clk in
          let last_date := as_date (last_completed_date prog) in
          let streak := get (streak user) 0 in
          let longest := get (longest_streak user) 0 in
          let streak := streak_logic today last_date streak in
          let longest := Z.max longest streak in
          (* Points *)
          let points := points_logic (get (points user) 0) streak in
          (* Update progress *)
          let current_day := Z.max (get (current_day prog) 1) (day + 1) in
          update_one prog_col prog_id
            (set_progress (sorted completed) current_day today (now_progress clk)) ;;
          (* Update user stats *)
          update_one users user_id
            (set_user streak longest points (now_user clk)) ;;
          do updated_user <- find_one_by_id users user_id;
          do updated_prog <- find_one_by_id prog_col prog_id;
          ret {| ok := true;
                 user := _sanitize updated_user;
                 progress := _sanitize updated_prog |}
      end
  end.

(** Lines 185-193: the Progress record of a pair, created when there is
    none.  The answer is the pair of ["ok"] and ["progress"]. *)
Definition get_progress (email slug : string)
    : M (bool * option (sanitized progress_doc)) :=
  do prog_col <- _collection progress_collection;
  do doc <- find_one prog_col (by_pair email slug);
  do doc <- match doc with
            | Some d => ret (Some d)
            | None =>
                create_document prog_col (Progress email slug) ;;
                do prog_col <- _collection progress_collection;
                find_one prog_col (by_pair email slug)
            end;
  ret (true, _sanitize doc).

(** ** Reading the store *)

(** The User document [find_one({"email": e})] returns. *)
Definition user_record (w : world) (e : string) : option user_doc :=
  st ← db w; snd <$> list_find (by_email e) (users st).

(** The Progress document of the pair (user email, challenge slug). *)
Definition progress_record (w : world) (e slug : string) : option progress_doc :=
  st ← db w; snd <$> list_find (by_pair e slug) (prog_col st).

(** The Progress record a call works on: the stored one, or the record
    created at lines 205-208 when there is none. *)
Definition prior_progress (st : database) (e slug : string) : nat * progress_doc :=
  match list_find (by_pair e slug) (prog_col st) with
  | Some ip => ip
  | None => (length (prog_col st), Progress e slug)
  end.

(** The collection on which the update of line 241 acts. *)
Definition prior_prog_col (st : database) (e slug : string) : list progress_doc :=
  match list_find (by_pair e slug) (prog_col st) with
  | Some _ => prog_col st
  | None => prog_col st ++ [Progress e slug]
  end.

(** [prior w payload u p]: the store is configured, [u] is the User document
    of the payload's email, and [p] is the Progress record the call works
    on. *)
Definition prior (w : world) (payload : CompletePayload.t)
    (u : user_doc) (p : progress_doc) : Prop :=
  exists st i,
    db w = Some st /\
    list_find (by_email (CompletePayload.user_email payload)) (users st) = Some (i, u) /\
    p = (prior_progress st (CompletePayload.user_email payload)
           (CompletePayload.challenge_slug payload)).2.

(** [outcome payload clk w u' p']: the call returns normally, answers with
    the documents [u'] and [p'], and these are the documents now stored for
    the payload's email and (email, slug) pair. *)
Definition outcome (payload : CompletePayload.t) (clk : clock) (w : world)
    (u' : user_doc) (p' : progress_doc) : Prop :=
  exists resp w' i j,
    complete_day payload clk w = (Return resp, w') /\
    ok resp = true /\
    user resp = Some {| id := i; fields := u' |} /\
    progress resp = Some {| id := j; fields := p' |} /\
    user_record w' (CompletePayload.user_email payload) = Some u' /\
    progress_record w' (CompletePayload.user_email payload)
      (CompletePayload.challenge_slug payload) = Some p'.

(** Requests are served one after the other; a request that fails leaves the
    store as it is at that point. *)
Definition run (calls : list (CompletePayload.t * clock)) (w : world) : world :=
  fold_left (fun w c => (complete_day c.1 c.2 w).2) calls w.

(** ** The transition of one call *)

(** The ["$set"] sent for the User document, from the documents read. *)
Definition user_update (payload : CompletePayload.t) (clk : clock)
    (u : user_doc) (p : progress_doc) : user_doc -> user_doc :=
  let s := streak_logic (date_today clk) (as_date (last_completed_date p))
             (get (streak u) 0) in
  set_user s (Z.max (get (longest_streak u) 0) s)
    (points_logic (get (points u) 0) s) (now_user clk).

(** The ["$set"] sent for the Progress document, from the document read. *)
Definition progress_update (payload : CompletePayload.t) (clk : clock)
    (p : progress_doc) : progress_doc -> progress_doc :=
  set_progress
    (sorted (append_day (CompletePayload.day payload) (get (completed_days p) [])))
    (Z.max (get (current_day p) 1) (CompletePayload.day payload + 1))
    (date_today clk) (now_progress clk).

(** ** Notions of the specification *)

(** A strictly increasing sequence: every element is below all later ones. *)
Definition strictly_increasing (l : list Z) : Prop := StronglySorted Z.lt l.

Global Instance strictly_increasing_dec l : Decision (strictly_increasing l).
Proof. unfold strictly_increasing. apply _. Defined.

(** The sorted union of the previous completed days with the singleton
    [{day}], following the spec's words: the elements of the union of the two
    sets, in ascending order. *)
Definition sorted_union (prev : list Z) (day : Z) : list Z :=
  sorted (elements (list_to_set prev ∪ {[day]} : gset Z)).

(** Exactly two mutations, as the specification counts them: the writes of
    a call are one update of a User document and one update of a Progress
    document. *)
Definition two_updates (t : list write) : Prop :=
  exists i j, t ≡ₚ [UpdateOne "user" i; UpdateOne "progress" j].



(** The stats of a user are consistent: the streak is not negative (the
    schema has [ge=0]) and the longest streak is not below it. *)
Definition stats_ok (u : user_doc) : Prop :=
  0 <= get (streak u) 0 <= get (longest_streak u) 0.

Definition all_users (P : user_doc -> Prop) (w : world) : Prop :=
  forall st, db w = Some st -> Forall P (users st).

(** ** Example stores *)

Definition member (s l pts : Z) : user_doc :=
  {| name := "Alice"; email := "alice@example.com"; avatar_url := None;
     points := Some pts; streak := Some s; longest_streak := Some l;
     badges := []; is_active := true; user_updated_at := None |}.

Definition record (current : Z) (completed : list Z) (last : option date) : progress_doc :=
  {| user_email := "alice@example.com"; challenge_slug := "ai-productivity";
     current_day := Some current; completed_days := Some completed;
     last_completed_date := isoformat <$> last; progress_updated_at := None |}.

Definition store (u : user_doc) (ps : list progress_doc) : world :=
  {| db := Some {| users := [u]; prog_col := ps |}; writes := [] |}.

Definition request (day : Z) : CompletePayload.t :=
  CompletePayload.mk "alice@example.com" "ai-productivity" day.

(** A store with two users, where Bob has opened a challenge (his Progress
    record is fresh) and Alice is seven days into another. *)
Definition bob_store : world :=
  {| db := Some {| users := [member 9 9 95; User "Bob" "bob@example.com" None];
                   prog_col := [record 3 [1; 2] None;
                                Progress "bob@example.com" "design-foundations"] |};
     writes := [InsertOne "progress" 1] |}.

(** A clock reading on the day of ordinal [d]. *)
Definition on_day (d : Z) : clock :=
  {| date_today := mkdate d; now_progress := 86400000000 * d + 1;
     now_user := 86400000000 * d + 2 |}.

(** ** The other endpoints on users and progress *)

(** Lines 74-77. *)
Module UpsertUser.
Record t : Type := mk { name : string; email : string; avatar_url : option string }.
End UpsertUser.

(** Lines 80-93: the user of an email, created with the defaults of the
    schema when there is none.  The answer is the pair of ["ok"] and
    ["user"]. *)
Definition create_or_get_user (payload : UpsertUser.t)
    : M (bool * option (sanitized user_doc)) :=
  do users <- _collection user_collection;
  do doc <- find_one users (by_email (UpsertUser.email payload));
  match doc with
  | Some d => ret (true, _sanitize (Some d))
  | None =>
      let user := User (UpsertUser.name payload) (UpsertUser.email payload)
                    (UpsertUser.avatar_url payload) in
      do _id <- create_document users user;
      do created <- find_one_by_id users _id;
      do created <- match created with
                    | Some c => ret (Some c)
                    | None => find_one users (by_email (UpsertUser.email payload))
                    end;
      ret (true, _sanitize created)
  end.

(** A request to one of the three endpoints that read or write the
    collections [user] and [progress]. *)
Inductive api_call : Type :=
  | PostUsers (payload : UpsertUser.t)
  | GetProgress (email slug : string)
  | PostComplete (payload : CompletePayload.t) (clk : clock).

(** The store after a request is served, whether it succeeded or not. *)
Definition serve (c : api_call) (w : world) : world :=
  match c with
  | PostUsers payload => (create_or_get_user payload w).2
  | GetProgress e slug => (get_progress e slug w).2
  | PostComplete payload clk => (complete_day payload clk w).2
  end.

Definition serve_all (calls : list api_call) (w : world) : world :=
  fold_left (fun w c => serve c w) calls w.

(** The store before any request. *)
Definition empty_store : world :=
  {| db := Some {| users := []; prog_col := [] |}; writes := [] |}.

(** How one request can change the database. *)
Inductive step (st : database) : database -> Prop :=
  | step_same : step st st
  | step_new_user n e a :
      list_find (by_email e) (users st) = None ->
      step st {| users := users st ++ [User n e a]; prog_col := prog_col st |}
  | step_new_progress e slug :
      list_find (by_pair e slug) (prog_col st) = None ->
      step st {| users := users st; prog_col := prog_col st ++ [Progress e slug] |}
  | step_complete payload clk i u :
      list_find (by_email (CompletePayload.user_email payload)) (users st) = Some (i, u) ->
      let e := CompletePayload.user_email payload in
      let slug := CompletePayload.challenge_slug payload in
      let jp := prior_progress st e slug in
      step st {| users := alter (user_update payload clk u jp.2) i (users st);
                 prog_col := alter (progress_update payload clk jp.2) jp.1
                               (prior_prog_col st e slug) |}.

(** The key of a Progress record. *)
Definition pair_of (p : progress_doc) : string * string :=
  (user_email p, challenge_slug p).

(** At most one User document per email and at most one Progress document
    per (user email, challenge slug) pair. *)
Definition unique_documents (st : database) : Prop :=
  NoDup (email <$> users st) /\ NoDup (pair_of <$> prog_col st).

(** A Progress record is well formed: its completed days are strictly
    increasing, its current day is at least 1 and beyond every completed
    day. *)
Definition progress_ok (p : progress_doc) : Prop :=
  strictly_increasing (get (completed_days p) []) /\
  1 <= get (current_day p) 1 /\
  Forall (fun d => d < get (current_day p) 1) (get (completed_days p) []).

(** The stats of a user are sound: the streak is between 0 and the longest
    streak, and every day of the longest streak has earned its 10 points. *)
Definition stats_sound (u : user_doc) : Prop :=
  0 <= get (streak u) 0 <= get (longest_streak u) 0 /\
  10 * get (longest_streak u) 0 <= get (points u) 0.

(** ** The catalogue and the chat log

    The collections [challenge], [lesson] and [message] of the same store.
    The endpoints below use these three collections only, and the endpoints
    above never use them: they are kept in a world of their own, with the
    same operations. *)

Module Catalog.

(** The documents (src/schemas.py, lines 23-39 and 49-53). *)
Record challenge_doc : Type := mk_challenge {
  title : string;
  slug : string;
  category : string;
  difficulty : string;
  description : string;
  cover_image : option string;
  days : Z
}.

Record lesson_doc : Type := mk_lesson {
  challenge_slug : string;
  day : Z;
  lesson_title : string;
  content : string;
  task : option string
}.

Record message_doc : Type := mk_message {
  user_email : string;
  role : string;
  message_content : string
}.

(** [Challenge(...)]: the model is built when [days] is within [ge=1, le=60];
    [None] is the [ValidationError]. *)
Definition Challenge (title slug category difficulty description : string)
    (cover_image : option string) (days : Z) : option challenge_doc :=
  if decide (1 <= days <= 60)
  then Some {| title := title; slug := slug; category := category;
               difficulty := difficulty; description := description;
               cover_image := cover_image; days := days |}
  else None.

(** [Lesson(...)]: the model is built when [day] is within [ge=1, le=60]. *)
Definition Lesson (challenge_slug : string) (day : Z) (title content : string)
    (task : option string) : option lesson_doc :=
  if decide (1 <= day <= 60)
  then Some {| challenge_slug := challenge_slug; day := day;
               lesson_title := title; content := content; task := task |}
  else None.

Definition Message (user_email role content : string) : message_doc :=
  {| user_email := user_email; role := role; message_content := content |}.

Record database : Type := mk_db {
  challenge : list challenge_doc;
  lesson : list lesson_doc;
  message : list message_doc
}.

Record world : Type := mk_world {
  db : option database;
  writes : list write
}.

Definition M (A : Type) : Type := world -> result A * world.

Definition ret {A} (a : A) : M A := fun w => (Return a, w).
Definition raise {A} (e : HTTPException) : M A := fun w => (Raise e, w).
Definition bind {A B} (m : M A) (k : A -> M B) : M B :=
  fun w => match m w with
           | (Return a, w') => k a w'
           | (Raise e, w') => (Raise e, w')
           end.

Declare Scope catalog_scope.
Notation "'do' x <- m ; k" := (bind m (fun x => k))
  (at level 10, x name, m at level 100, k at level 200) : catalog_scope.
Notation "m ;; k" := (bind m (fun _ => k))
  (at level 100, k at level 200, right associativity) : catalog_scope.
Local Open Scope catalog_scope.

(** [try: m except Exception: pass] *)
Definition try_pass {A} (m : M A) : M unit :=
  fun w => match m w with
           | (Return _, w') => (Return tt, w')
           | (Raise _, w') => (Return tt, w')
           end.

(** [for x in l: f(x)] *)
Fixpoint for_each {A} (l : list A) (f : A -> M unit) : M unit :=
  match l with
  | [] => ret tt
  | x :: l => f x ;; for_each l f
  end.

(** A model that fails validation makes the handler fail with an exception
    that is not an [HTTPException]. *)
Definition validated {A} (model : option A) : M A :=
  match model with
  | Some a => ret a
  | None => raise internal_server_error
  end.

(** [[Model(...), Model(...), ...]]: the models are built in order. *)
Fixpoint validated_all {A} (models : list (option A)) : M (list A) :=
  match models with
  | [] => ret []
  | m :: ms => do a <- validated m; do l <- validated_all ms; ret (a :: l)
  end.

Record handle (D : Type) : Type := mk_handle {
  collection : string;
  docs : database -> list D;
  with_docs : list D -> database -> database
}.
Arguments collection {D} h.
Arguments docs {D} h d.
Arguments with_docs {D} h l d.

Definition challenge_collection : handle challenge_doc :=
  {| collection := "challenge"; docs := challenge;
     with_docs := fun l d => {| challenge := l; lesson := lesson d; message := message d |} |}.

Definition lesson_collection : handle lesson_doc :=
  {| collection := "lesson"; docs := lesson;
     with_docs := fun l d => {| challenge := challenge d; lesson := l; message := message d |} |}.

Definition message_collection : handle message_doc :=
  {| collection := "message"; docs := message;
     with_docs := fun l d => {| challenge := challenge d; lesson := lesson d; message := l |} |}.

(** Lines 62-65. *)
Definition _collection {D} (h : handle D) : M (handle D) :=
  fun w => match db w with
           | None => (Raise not_configured, w)
           | Some _ => (Return h, w)
           end.

(** [coll.find_one(filter)] *)
Definition find_one {D} (h : handle D) (P : D -> Prop)
    `{!forall x, Decision (P x)} : M (option (nat * D)) :=
  fun w => match db w with
           | None => (Raise not_configured, w)
           | Some d => (Return (list_find P (docs h d)), w)
           end.

(** Modelled from the spec: [create_document] of the module [database], which
    is not among the sources; the store "supports find-by-filter, insert, and
    field-level update".  The document is inserted in the named collection
    and its new identifier is returned. *)
Definition create_document {D} (h : handle D) (doc : D) : M nat :=
  fun w => match db w with
           | None => (Raise not_configured, w)
           | Some d =>
               let id := length (docs h d) in
               (Return id,
                {| db := Some (with_docs h (docs h d ++ [doc]) d);
                   writes := writes w ++ [InsertOne (collection h) id] |})
           end.

(** Modelled from the spec: [get_documents] of the module [database], which
    is not among the sources; the store "supports find-by-filter": the find
    without a filter gives all the documents of the named collection, with
    their identifiers, in insertion order. *)
Definition get_documents {D} (h : handle D) : M (list (nat * D)) :=
  fun w => match db w with
           | None => (Raise not_configured, w)
           | Some d => (Return (imap pair (docs h d)), w)
           end.

Definition by_slug (s : string) (c : challenge_doc) : Prop := slug c = s.
Definition by_slug_day (s : string) (d : Z) (l : lesson_doc) : Prop :=
  challenge_slug l = s /\ day l = d.

Global Instance by_slug_dec s c : Decision (by_slug s c).
Proof. unfold by_slug. apply _. Defined.
Global Instance by_slug_day_dec s d l : Decision (by_slug_day s d l).
Proof. unfold by_slug_day. apply _. Defined.

(** Lines 109-128: the two demo challenges. *)
Definition demo : list (option challenge_doc) :=
  [Challenge "AI Productivity in 30 Days" "ai-productivity" "AI" "Beginner"
     "Daily 5–10 min micro-lessons to automate workflows with AI." None 30;
   Challenge "Design Foundations in 30 Days" "design-foundations" "Design" "Beginner"
     "Master layout, typography, color and components with micro-tasks." None 30].

(** [[_sanitize(i) for i in items]] *)
Definition sanitize_all {D} (items : list (nat * D)) : list (sanitized D) :=
  omap (fun i => _sanitize (Some i)) items.

(** Lines 104-135. *)
Definition list_challenges : M (bool * list (sanitized challenge_doc)) :=
  do items <- get_documents challenge_collection;
  do items <- match items with
              | [] =>
                  do demo <- validated_all demo;
                  for_each demo
                    (fun c => try_pass (create_document challenge_collection c)) ;;
                  get_documents challenge_collection
              | _ :: _ => ret items
              end;
  ret (true, sanitize_all items).

(** Lines 138-145. *)
Module CreateChallenge.
Record t : Type := mk {
  title : string;
  slug : string;
  category : string;
  difficulty : string;
  description : string;
  cover_image : option string;
  days : Z
}.
End CreateChallenge.

Definition slug_exists : HTTPException :=
  {| status_code := 400; detail := "Challenge with this slug already exists" |}.

(** Lines 148-154. *)
Definition create_challenge (payload : CreateChallenge.t) : M bool :=
  do challenges <- _collection challenge_collection;
  do exists_ <- find_one challenges (by_slug (CreateChallenge.slug payload));
  match exists_ with
  | Some _ => raise slug_exists
  | None =>
      do model <- validated
        (Challenge (CreateChallenge.title payload) (CreateChallenge.slug payload)
           (CreateChallenge.category payload) (CreateChallenge.difficulty payload)
           (CreateChallenge.description payload)
           (CreateChallenge.cover_image payload) (CreateChallenge.days payload));
      create_document challenge_collection model ;;
      ret true
  end.

(** [f"Day {day}: Micro-lesson"] *)
Definition demo_title (day : Z) : string :=
  "Day " +:+ pretty day +:+ ": Micro-lesson".

Definition demo_content : string :=
  "Today you will learn a concise concept and complete a small task. "
  +:+ "Spend 5–10 minutes reading, then do the task to lock in the learning.".

Definition demo_task : string :=
  "Write down 3 actionable steps you can apply today.".

(** Lines 157-174. *)
Definition get_lesson (slug : string) (day : Z)
    : M (bool * option (sanitized lesson_doc)) :=
  do lessons <- _collection lesson_collection;
  do lesson <- find_one lessons (by_slug_day slug day);
  do lesson <- match lesson with
               | Some l => ret (Some l)
               | None =>
                   do demo <- validated
                     (Lesson slug day (demo_title day) demo_content (Some demo_task));
                   create_document lesson_collection demo ;;
                   do lessons <- _collection lesson_collection;
                   find_one lessons (by_slug_day slug day)
               end;
  ret (true, _sanitize lesson).

(** Lines 264-267. *)
Module ChatRequest.
Record t : Type := mk { user_email : string; challenge_slug : string; message : string }.
End ChatRequest.

(** [k in prompt] on strings: [k] occurs in [prompt]. *)
Fixpoint occurs_in (k prompt : string) : bool :=
  String.prefix k prompt
  || match prompt with
     | EmptyString => false
     | String _ rest => occurs_in k rest
     end.

Definition reply_tip : string :=
  "Here's a tip: break the task into a 5-minute action. Identify the smallest next step "
  +:+ "you can complete now. If the lesson mentions tools, summarize the 3 key commands "
  +:+ "or steps and try one. Want an example tailored to your role? Tell me your job title.".

Definition reply_motivation : string :=
  "You're doing great. Consistency over intensity wins in microlearning. "
  +:+ "Complete today's task and you'll add +10 points. Keep your streak alive!".

Definition reply_default : string :=
  "Got it. In LearnIn30Days, each lesson is 5–10 minutes with a single task. "
  +:+ "Ask me about the concept, a quick checklist, or how to apply it to your project.".

Section chat.

(** [str.strip] and [str.lower] of the Python runtime. *)
Variables (strip lower : string -> string).

(** Lines 273-289. *)
Definition chat_reply (message : string) : string :=
  let prompt := lower (strip message) in
  if existsb (fun k => occurs_in k prompt) ["stuck"; "help"; "clarify"; "explain"]
  then reply_tip
  else if existsb (fun k => occurs_in k prompt)
            ["motivate"; "motivation"; "remind"; "accountability"]
  then reply_motivation
  else reply_default.

(** Lines 270-298. *)
Definition chat_assistant (req : ChatRequest.t) : M (bool * string) :=
  let reply := chat_reply (ChatRequest.message req) in
  try_pass
    (create_document message_collection
       (Message (ChatRequest.user_email req) "user" (ChatRequest.message req)) ;;
     create_document message_collection
       (Message (ChatRequest.user_email req) "assistant" reply)) ;;
  ret (true, reply).

End chat.

(** A request to one of the three endpoints of the catalogue. *)
Inductive api_call : Type :=
  | GetChallenges
  | PostChallenges (payload : CreateChallenge.t)
  | GetLesson (slug : string) (day : Z).

Definition serve (c : api_call) (w : world) : world :=
  match c with
  | GetChallenges => (list_challenges w).2
  | PostChallenges payload => (create_challenge payload w).2
  | GetLesson slug day => (get_lesson slug day w).2
  end.

Definition serve_all (calls : list api_call) (w : world) : world :=
  fold_left (fun w c => serve c w) calls w.

Definition empty_store : world :=
  {| db := Some {| challenge := []; lesson := []; message := [] |}; writes := [] |}.

(** The key of a lesson. *)
Definition key_of (l : lesson_doc) : string * Z := (challenge_slug l, day l).

(** The catalogue is well formed: no two challenges share a slug, no two
    lessons share a (challenge slug, day) pair, and the number of days of a
    challenge and the day of a lesson are between 1 and 60. *)
Definition catalog_ok (st : database) : Prop :=
  NoDup (slug <$> challenge st) /\
  Forall (fun c => 1 <= days c <= 60) (challenge st) /\
  NoDup (key_of <$> lesson st) /\
  Forall (fun l => 1 <= day l <= 60) (lesson st).

(** [str.lower] on ASCII text, for the examples. *)
Fixpoint ascii_lower (s : string) : string :=
  match s with
  | EmptyString => EmptyString
  | String c rest =>
      let n := Ascii.nat_of_ascii c in
      String (if ((65 <=? n) && (n <=? 90))%nat then Ascii.ascii_of_nat (n + 32) else c)
        (ascii_lower rest)
  end.

End Catalog.

(** The document stored for a payload. *)
Definition challenge_of (payload : Catalog.CreateChallenge.t) : Catalog.challenge_doc :=
  {| Catalog.title := Catalog.CreateChallenge.title payload;
     Catalog.slug := Catalog.CreateChallenge.slug payload;
     Catalog.category := Catalog.CreateChallenge.category payload;
     Catalog.difficulty := Catalog.CreateChallenge.difficulty payload;
     Catalog.description := Catalog.CreateChallenge.description payload;
     Catalog.cover_image := Catalog.CreateChallenge.cover_image payload;
     Catalog.days := Catalog.CreateChallenge.days payload |}.

(** The placeholder lesson of a day of a challenge (lines 162-171). *)
Definition placeholder (slug : string) (day : Z) : Catalog.lesson_doc :=
  {| Catalog.challenge_slug := slug; Catalog.day := day;
     Catalog.lesson_title := Catalog.demo_title day;
     Catalog.content := Catalog.demo_content;
     Catalog.task := Some Catalog.demo_task |}.

(** * Properties *)

(** ** Lemmas on collections *)

Section collections.
Context {D : Type} (P : D -> Prop) `{!forall x, Decision (P x)}.

Lemma list_find_alter (f : D -> D) (j : nat) (l : list D) :
  (forall x, P (f x) <-> P x) ->
  list_find P (alter f j l)
  = (fun ix => (ix.1, if decide (ix.1 = j) then f ix.2 else ix.2)) <$> list_find P l.
Proof.
  intros Hf. revert j. induction l as [|x l IH]; intros j; [done|].
  destruct j as [|j]; cbn [alter list_alter list_find].
  - rewrite (decide_ext (P (f x)) (P x)) by apply Hf.
    destruct (decide (P x)); [done|].
    destruct (list_find P l) as [[i y]|]; [|done].
    cbn [fmap option_map option_fmap prod_map fst snd].
    by rewrite decide_False by lia.
  - destruct (decide (P x)).
    + cbn [fmap option_map option_fmap fst snd]. by rewrite decide_False by lia.
    + change (list_alter f j l) with (alter f j l). rewrite IH.
      destruct (list_find P l) as [[i y]|]; [|done].
      cbn [fmap option_map option_fmap prod_map fst snd].
      destruct (decide (i = j)); [by rewrite decide_True by lia|].
      by rewrite decide_False by lia.
Qed.

Lemma list_find_snoc_None (l : list D) (x : D) :
  list_find P l = None -> P x -> list_find P (l ++ [x]) = Some (length l, x).
Proof.
  intros Hl Hx. rewrite list_find_app_r by done. simpl.
  by rewrite decide_True by done.
Qed.

Lemma list_find_snoc_other (l : list D) (x : D) :
  ~ P x -> list_find P (l ++ [x]) = list_find P l.
Proof.
  intros Hx. destruct (list_find P l) as [[i y]|] eqn:Hl.
  - by apply list_find_app_l.
  - rewrite list_find_app_r by done. simpl. by rewrite decide_False by done.
Qed.

Lemma list_find_lookup (l : list D) (i : nat) (x : D) :
  list_find P l = Some (i, x) -> l !! i = Some x.
Proof. by intros (? & _)%list_find_Some. Qed.
End collections.

(** ** What one call does *)

(** Runs the store operations of a goal as far as the store is known. *)
Ltac run_store :=
  cbn beta iota zeta delta
    [bind _collection find_one find_one_by_id update_one create_document
     ret raise db writes docs with_docs collection
     user_collection progress_collection users prog_col].

Section one_call.
Variables (payload : CompletePayload.t) (clk : clock).
Local Abbreviation e := (CompletePayload.user_email payload).
Local Abbreviation slug := (CompletePayload.challenge_slug payload).

Lemma prior_progress_lookup st :
  prior_prog_col st e slug !! (prior_progress st e slug).1
  = Some (prior_progress st e slug).2.
Proof.
  unfold prior_prog_col, prior_progress.
  destruct (list_find _ _) as [[j p]|] eqn:Hp; simpl.
  - by eapply list_find_lookup.
  - by rewrite lookup_app_r, Nat.sub_diag by lia.
Qed.

Lemma prior_progress_find st :
  list_find (by_pair e slug) (prior_prog_col st e slug)
  = Some (prior_progress st e slug).
Proof.
  unfold prior_prog_col, prior_progress.
  destruct (list_find _ (prog_col st)) as [[j p]|] eqn:Hp; [done|].
  by apply list_find_snoc_None.
Qed.

Lemma prior_progress_pair st :
  by_pair e slug (prior_progress st e slug).2.
Proof.
  pose proof (prior_progress_find st) as H.
  destruct (prior_progress st e slug) as [j p].
  by apply list_find_Some in H as (_ & ? & _).
Qed.

(** The run of a call whose user exists. *)
Lemma complete_day_found w st i u :
  db w = Some st ->
  list_find (by_email e) (users st) = Some (i, u) ->
  let j := (prior_progress st e slug).1 in
  let p := (prior_progress st e slug).2 in
  complete_day payload clk w
  = (Return {| ok := true;
               user := Some {| id := i; fields := user_update payload clk u p u |};
               progress := Some {| id := j; fields := progress_update payload clk p p |} |},
     {| db := Some {| users := alter (user_update payload clk u p) i (users st);
                      prog_col := alter (progress_update payload clk p) j
                                    (prior_prog_col st e slug) |};
        writes := writes w
                  ++ match list_find (by_pair e slug) (prog_col st) with
                     | Some _ => []
                     | None => [InsertOne "progress" j]
                     end
                  ++ [UpdateOne "progress" j; UpdateOne "user" i] |}).
Proof.
  intros Hdb Hu j p.
  pose proof (prior_progress_lookup st) as Hlook.
  pose proof (prior_progress_find st) as Hfind.
  pose proof (list_find_lookup _ _ _ _ Hu) as Hulook.
  destruct w as [d ws]; simpl in Hdb; subst d.
  unfold complete_day. run_store. rewrite Hu. run_store.
  subst j p. unfold prior_prog_col, prior_progress in *.
  destruct (list_find (by_pair e slug) (prog_col st)) as [[j p]|] eqn:Hp;
    cbn [fst snd] in *; run_store.
  - rewrite !list_lookup_alter_eq, Hulook, Hlook.
    cbn [fmap option_fmap option_map _sanitize]. by rewrite <- !app_assoc.
  - rewrite Hfind. run_store.
    rewrite !list_lookup_alter_eq, Hulook, Hlook.
    cbn [fmap option_fmap option_map _sanitize].
    by rewrite <- !app_assoc.
Qed.
End one_call.

(** ** Sorted lists of days *)

Lemma strictly_increasing_NoDup l : strictly_increasing l -> NoDup l.
Proof.
  induction 1 as [|x l _ IH Hx]; constructor; [|done].
  intros Hin. rewrite Forall_forall in Hx. specialize (Hx _ Hin). lia.
Qed.

Lemma strictly_increasing_le l : strictly_increasing l -> StronglySorted Z.le l.
Proof.
  induction 1 as [|x l _ IH Hx]; constructor; [done|].
  eapply Forall_impl; [exact Hx|]. intros y ?; simpl in *; lia.
Qed.

Lemma le_sorted_NoDup_strict l :
  StronglySorted Z.le l -> NoDup l -> strictly_increasing l.
Proof.
  induction 1 as [|x l _ IH Hx]; intros Hnd; [constructor|].
  apply NoDup_cons in Hnd as [Hx' Hnd]. constructor; [by apply IH|].
  rewrite Forall_forall in Hx |- *. intros y Hy.
  specialize (Hx _ Hy). simpl in Hx.
  assert (x <> y) by (by intros ->). lia.
Qed.

Lemma sorted_le l : StronglySorted Z.le (sorted l).
Proof. apply (StronglySorted_merge_sort Z.le). Qed.

Lemma sorted_perm l : sorted l ≡ₚ l.
Proof. apply (merge_sort_Permutation Z.le). Qed.

Lemma sorted_is_sorted_perm l k :
  StronglySorted Z.le k -> k ≡ₚ l -> sorted l = k.
Proof.
  intros Hk Hperm.
  apply (StronglySorted_unique Z.le); [apply sorted_le|done|].
  by rewrite sorted_perm.
Qed.

(** Sorting a strictly increasing list changes nothing. *)
Lemma sorted_strictly_increasing l : strictly_increasing l -> sorted l = l.
Proof. intros Hl. apply sorted_is_sorted_perm; [by apply strictly_increasing_le|done]. Qed.

Lemma append_day_NoDup day l : NoDup l -> NoDup (append_day day l).
Proof.
  intros Hl. unfold append_day. case_decide; [done|].
  apply NoDup_app. split_and!; [done| |apply NoDup_singleton].
  intros x Hx ->%list_elem_of_singleton. done.
Qed.

Lemma elem_of_append_day x day l : x ∈ append_day day l <-> x ∈ l \/ x = day.
Proof.
  unfold append_day. case_decide.
  - split; [by left|]. by intros [?| ->].
  - rewrite elem_of_app, list_elem_of_singleton. done.
Qed.

Lemma elem_of_sorted x l : x ∈ sorted l <-> x ∈ l.
Proof. by rewrite sorted_perm. Qed.

(** What is stored at line 244 is strictly increasing whenever what was read
    has no duplicate. *)
Lemma sorted_append_day_strict day l :
  NoDup l -> strictly_increasing (sorted (append_day day l)).
Proof.
  intros Hl. apply le_sorted_NoDup_strict; [apply sorted_le|].
  rewrite sorted_perm. by apply append_day_NoDup.
Qed.

(** ... and it is the sorted union of the spec. *)
Lemma sorted_append_day_union day l :
  NoDup l -> sorted (append_day day l) = sorted_union l day.
Proof.
  intros Hl. unfold sorted_union.
  apply sorted_is_sorted_perm; [apply sorted_le|].
  rewrite sorted_perm.
  apply NoDup_Permutation; [apply NoDup_elements|by apply append_day_NoDup|].
  intros x. rewrite elem_of_elements, elem_of_union, elem_of_list_to_set,
    elem_of_singleton, elem_of_append_day. done.
Qed.

(** ** Every call, in every store *)

Section any_call.
Variables (payload : CompletePayload.t) (clk : clock).
Local Abbreviation e := (CompletePayload.user_email payload).
Local Abbreviation slug := (CompletePayload.challenge_slug payload).

Lemma complete_day_not_configured w :
  db w = None -> complete_day payload clk w = (Raise not_configured, w).
Proof.
  intros Hdb. destruct w as [d ws]; simpl in Hdb; subst d.
  unfold complete_day. by run_store.
Qed.

Lemma complete_day_no_user w st :
  db w = Some st ->
  list_find (by_email e) (users st) = None ->
  complete_day payload clk w = (Raise user_not_found, w).
Proof.
  intros Hdb Hu. destruct w as [d ws]; simpl in Hdb; subst d.
  unfold complete_day. run_store. rewrite Hu. by run_store.
Qed.

Lemma user_update_email u p x : email (user_update payload clk u p x) = email x.
Proof. done. Qed.

Lemma progress_update_pair p x e0 s0 :
  by_pair e0 s0 (progress_update payload clk p x) <-> by_pair e0 s0 x.
Proof. done. Qed.

(** A call whose user exists returns, and the documents it answers with
    are the ones it has stored. *)
Lemma complete_day_outcome w u p :
  prior w payload u p ->
  outcome payload clk w (user_update payload clk u p u)
    (progress_update payload clk p p).
Proof.
  intros (st & i & Hdb & Hu & ->).
  eexists _, _, i, _. split; [by apply complete_day_found|].
  split_and!; [done..| |].
  - unfold user_record. cbn [db users mbind option_bind].
    rewrite (list_find_alter (by_email e)) by done.
    rewrite Hu. cbn [fmap option_fmap option_map fst snd].
    by rewrite decide_True by done.
  - unfold progress_record. cbn [db prog_col mbind option_bind].
    rewrite (list_find_alter (by_pair e slug)) by done.
    rewrite prior_progress_find.
    cbn [fmap option_fmap option_map fst snd].
    by rewrite decide_True by done.
Qed.

(** The outcome of a call is unique. *)
Lemma outcome_unique w u1 p1 u2 p2 :
  outcome payload clk w u1 p1 -> outcome payload clk w u2 p2 ->
  u1 = u2 /\ p1 = p2.
Proof.
  intros (r1 & w1 & i1 & j1 & E1 & _ & Hu1 & Hp1 & _)
         (r2 & w2 & i2 & j2 & E2 & _ & Hu2 & Hp2 & _).
  rewrite E1 in E2. injection E2 as <- <-.
  rewrite Hu1 in Hu2. rewrite Hp1 in Hp2. by simplify_eq.
Qed.

(** The effect of any call on the Progress record of any pair: the record
    is left as it is, or the call is for this pair and stores the update of
    the record it works on. *)
Lemma progress_record_step w e0 s0 :
  let w' := (complete_day payload clk w).2 in
  progress_record w' e0 s0 = progress_record w e0 s0 \/
  (e0 = e /\ s0 = slug /\
   let p := default (Progress e0 s0) (progress_record w e0 s0) in
   progress_record w' e0 s0 = Some (progress_update payload clk p p)).
Proof.
  intros w'. subst w'.
  destruct (db w) as [st|] eqn:Hdb;
    [|left; by rewrite complete_day_not_configured].
  destruct (list_find (by_email e) (users st)) as [[i u]|] eqn:Hu;
    [|left; by erewrite complete_day_no_user].
  rewrite (complete_day_found _ _ _ _ _ _ Hdb Hu).
  unfold progress_record. rewrite Hdb. cbn [snd db prog_col mbind option_bind].
  rewrite (list_find_alter (by_pair e0 s0))
    by (intros; apply progress_update_pair).
  destruct (decide (by_pair e0 s0 (Progress e slug))) as [[<- <-]|Hne].
  - right. split_and!; [done..|]. simpl.
    rewrite prior_progress_find. cbn [fmap option_fmap option_map fst snd].
    rewrite decide_True by done. unfold prior_progress.
    by destruct (list_find _ (prog_col st)) as [[j p]|].
  - left.
    assert (list_find (by_pair e0 s0) (prior_prog_col st e slug)
            = list_find (by_pair e0 s0) (prog_col st)) as ->.
    { unfold prior_prog_col. destruct (list_find (by_pair e slug) _); [done|].
      by apply list_find_snoc_other. }
    destruct (list_find (by_pair e0 s0) (prog_col st)) as [[i0 x]|] eqn:Hx;
      [|done].
    cbn [fmap option_fmap option_map fst snd].
    rewrite decide_False; [done|]. intros ->.
    apply list_find_Some in Hx as (Hx & Hpair & _).
    pose proof (prior_progress_lookup payload st) as Hl.
    pose proof (prior_progress_pair payload st) as Hp.
    unfold prior_prog_col in Hl.
    destruct (list_find (by_pair e slug) (prog_col st)) as [[j p]|] eqn:Hj.
    + destruct Hne. unfold by_pair in *. simpl.
      destruct Hpair, Hp. split; congruence.
    + apply lookup_lt_Some in Hx. unfold prior_progress in Hx.
      rewrite Hj in Hx. simpl in Hx. lia.
Qed.
End any_call.

(** ** The streak, the points and the longest streak *)

Ltac example_prior := eexists _, 0%nat; vm_compute; split_and!; reflexivity.

(** C1. Streak derivation.  For every prior state: when the Progress record
    has no last completion date the new streak is 1; when the difference
    [delta] in whole days between today and the last completion date is 1 the
    new streak is the previous streak plus 1; when [delta > 1] or
    [delta < 0] the new streak is 1. *)
Theorem streak_derivation payload clk w u p :
  prior w payload u p ->
  exists u' p',
    outcome payload clk w u' p' /\
    match as_date (last_completed_date p) with
    | None => streak u' = Some 1
    | Some last =>
        let delta := days (date_today clk) last in
        (delta = 1 -> streak u' = Some (get (streak u) 0 + 1)) /\
        (delta > 1 \/ delta < 0 -> streak u' = Some 1)
    end.
Proof.
  intros Hprior. eexists _, _. split; [by apply complete_day_outcome|].
  cbn [user_update set_user streak]. unfold streak_logic.
  destruct (as_date (last_completed_date p)) as [last|]; [|done].
  cbn zeta. split; intros Hd; repeat case_decide; try done; lia.
Qed.

Lemma streak_derivation_witness :
  prior (store (member 4 4 40) [record 5 [1; 2; 3; 4] (Some (mkdate 738999))])
    (request 5) (member 4 4 40) (record 5 [1; 2; 3; 4] (Some (mkdate 738999))) /\
  exists u' p',
    outcome (request 5) (on_day 739000)
      (store (member 4 4 40) [record 5 [1; 2; 3; 4] (Some (mkdate 738999))]) u' p' /\
    (days (mkdate 739000) (mkdate 738999) = 1 -> streak u' = Some (4 + 1)) /\
    (days (mkdate 739000) (mkdate 738999) > 1 \/
     days (mkdate 739000) (mkdate 738999) < 0 -> streak u' = Some 1).
Proof.
  split; [example_prior|].
  apply (streak_derivation (request 5) (on_day 739000)
           (store (member 4 4 40) [record 5 [1; 2; 3; 4] (Some (mkdate 738999))])
           (member 4 4 40) (record 5 [1; 2; 3; 4] (Some (mkdate 738999)))).
  example_prior.
Defined.

Lemma points_logic_bonus pts s :
  ((5 | s) -> points_logic pts s = pts + 15) /\
  (~ (5 | s) -> points_logic pts s = pts + 10).
Proof.
  unfold points_logic. rewrite <- (Z.mod_divide s 5) by lia.
  split; intros Hs; case_decide; try done; lia.
Qed.

(** C2. Points of one call.  The points of the user increase by exactly 15
    when the newly derived streak is a multiple of 5, and by exactly 10
    otherwise, for every prior state and every input day (a day already
    completed included). *)
Theorem points_awarded payload clk w u p :
  prior w payload u p ->
  exists u' p' s',
    outcome payload clk w u' p' /\
    streak u' = Some s' /\
    ((5 | s') -> points u' = Some (get (points u) 0 + 15)) /\
    (~ (5 | s') -> points u' = Some (get (points u) 0 + 10)).
Proof.
  intros Hprior. eexists _, _, _. split; [by apply complete_day_outcome|].
  cbn [user_update set_user streak points]. split; [done|].
  split; intros Hs; f_equal; by apply points_logic_bonus.
Qed.

Lemma points_awarded_witness :
  prior (store (member 4 4 40) [record 5 [1; 2; 3; 4; 5] (Some (mkdate 738999))])
    (request 5) (member 4 4 40) (record 5 [1; 2; 3; 4; 5] (Some (mkdate 738999))) /\
  exists u' p' s',
    outcome (request 5) (on_day 739000)
      (store (member 4 4 40) [record 5 [1; 2; 3; 4; 5] (Some (mkdate 738999))]) u' p' /\
    streak u' = Some s' /\
    ((5 | s') -> points u' = Some (40 + 15)) /\
    (~ (5 | s') -> points u' = Some (40 + 10)).
Proof.
  split; [example_prior|].
  apply (points_awarded (request 5) (on_day 739000)
           (store (member 4 4 40) [record 5 [1; 2; 3; 4; 5] (Some (mkdate 738999))])
           (member 4 4 40) (record 5 [1; 2; 3; 4; 5] (Some (mkdate 738999)))).
  example_prior.
Defined.

(** C3, as amended.  Same-day repeat: when the last completion date of the
    Progress record is today and the streak of the user is [S >= 1], a call
    (for any day) leaves the streak at [S]; it increases the points by
    exactly 10 when [S] is not a multiple of 5, and by exactly 15 when it
    is. *)
Theorem same_day_repeat payload clk w u p S :
  prior w payload u p ->
  as_date (last_completed_date p) = Some (date_today clk) ->
  get (streak u) 0 = S ->
  1 <= S ->
  exists u' p',
    outcome payload clk w u' p' /\
    streak u' = Some S /\
    (~ (5 | S) -> points u' = Some (get (points u) 0 + 10)) /\
    ((5 | S) -> points u' = Some (get (points u) 0 + 15)).
Proof.
  intros Hprior Hlast HS Hpos. eexists _, _.
  split; [by apply complete_day_outcome|].
  cbn [user_update set_user streak points]. rewrite Hlast, HS.
  assert (streak_logic (date_today clk) (Some (date_today clk)) S = S) as ->.
  { unfold streak_logic, days. cbn zeta.
    rewrite decide_False, decide_True by lia. lia. }
  split; [done|]. split; intros Hs; f_equal; by apply points_logic_bonus.
Qed.

Lemma same_day_repeat_witness :
  prior (store (member 3 3 30) [record 4 [1; 2; 3] (Some (mkdate 739000))])
    (request 3) (member 3 3 30) (record 4 [1; 2; 3] (Some (mkdate 739000))) /\
  exists u' p',
    outcome (request 3) (on_day 739000)
      (store (member 3 3 30) [record 4 [1; 2; 3] (Some (mkdate 739000))]) u' p' /\
    streak u' = Some 3 /\
    (~ (5 | 3) -> points u' = Some (30 + 10)) /\
    ((5 | 3) -> points u' = Some (30 + 15)).
Proof.
  split; [example_prior|].
  apply (same_day_repeat (request 3) (on_day 739000)
           (store (member 3 3 30) [record 4 [1; 2; 3] (Some (mkdate 739000))])
           (member 3 3 30) (record 4 [1; 2; 3] (Some (mkdate 739000))) 3);
    [example_prior|reflexivity|reflexivity|lia].
Defined.

(** C3, as stated, fails for a streak that is a multiple of 5: a user with a
    streak of 5 who completes day 5 a second time on the same date keeps the
    streak of 5, and receives 15 points, not 10. *)
Lemma same_day_repeat_counterexample :
  prior (store (member 5 5 55) [record 6 [1; 2; 3; 4; 5] (Some (mkdate 739000))])
    (request 5) (member 5 5 55)
    (record 6 [1; 2; 3; 4; 5] (Some (mkdate 739000))) /\
  as_date (last_completed_date (record 6 [1; 2; 3; 4; 5] (Some (mkdate 739000))))
  = Some (date_today (on_day 739000)) /\
  get (streak (member 5 5 55)) 0 = 5 /\
  ~ exists u' p',
      outcome (request 5) (on_day 739000)
        (store (member 5 5 55) [record 6 [1; 2; 3; 4; 5] (Some (mkdate 739000))])
        u' p' /\
      streak u' = Some 5 /\
      points u' = Some (get (points (member 5 5 55)) 0 + 10).
Proof.
  assert (prior (store (member 5 5 55)
                   [record 6 [1; 2; 3; 4; 5] (Some (mkdate 739000))])
            (request 5) (member 5 5 55)
            (record 6 [1; 2; 3; 4; 5] (Some (mkdate 739000)))) as Hprior
    by example_prior.
  split_and!; [done..|].
  intros (u' & p' & Hout & _ & Hpts).
  destruct (outcome_unique _ _ _ _ _ _ _ Hout
              (complete_day_outcome _ (on_day 739000) _ _ _ Hprior)) as [-> _].
  vm_compute in Hpts. discriminate.
Qed.

(** The stats that a call stores are consistent whenever the stats it read
    have a non-negative streak. *)
Lemma user_update_stats_ok payload clk u p x :
  0 <= get (streak u) 0 -> stats_ok (user_update payload clk u p x).
Proof.
  intros Hs. unfold stats_ok.
  change (get (streak (user_update payload clk u p x)) 0)
    with (streak_logic (date_today clk) (as_date (last_completed_date p))
            (get (streak u) 0)).
  change (get (longest_streak (user_update payload clk u p x)) 0)
    with (Z.max (get (longest_streak u) 0)
            (streak_logic (date_today clk) (as_date (last_completed_date p))
               (get (streak u) 0))).
  unfold streak_logic. destruct (as_date _); cbn zeta; repeat case_decide; lia.
Qed.

(** Consistent stats are an invariant of the store: calls keep them, so they
    hold in every store that grew from newly created users. *)
Lemma stats_ok_step payload clk w :
  all_users stats_ok w -> all_users stats_ok (complete_day payload clk w).2.
Proof.
  intros Hinv.
  destruct (db w) as [st|] eqn:Hdb;
    [|by rewrite complete_day_not_configured].
  destruct (list_find (by_email (CompletePayload.user_email payload)) (users st))
    as [[i u]|] eqn:Hu; [|by erewrite complete_day_no_user].
  rewrite (complete_day_found _ _ _ _ _ _ Hdb Hu).
  intros st' Hst'. cbn [snd db] in Hst'. simplify_eq. cbn [users].
  pose proof (Hinv _ Hdb) as Hall.
  apply Forall_alter; [done|]. intros x Hx _.
  apply user_update_stats_ok.
  apply list_find_lookup in Hu. rewrite Forall_lookup in Hall.
  by destruct (Hall _ _ Hu).
Qed.

Lemma stats_ok_run calls w :
  all_users stats_ok w -> all_users stats_ok (run calls w).
Proof.
  revert w. induction calls as [|c calls IH]; intros w Hinv; [done|].
  apply IH. by apply stats_ok_step.
Qed.



(** C10, as stated, fails on a stored streak that is negative.  The call
    reads the streak from the raw User document (line 218), and a next-day
    completion stores the previous streak plus 1 (line 226): with a stored
    streak of -1 and a last completion the day before, the call succeeds and
    stores and returns the streak 0 and the longest streak 0. *)
Lemma streak_at_least_one_counterexample :
  prior (store (member (-1) 0 0) [record 2 [1] (Some (mkdate 738999))])
    (request 2) (member (-1) 0 0) (record 2 [1] (Some (mkdate 738999))) /\
  (exists u' p',
      outcome (request 2) (on_day 739000)
        (store (member (-1) 0 0) [record 2 [1] (Some (mkdate 738999))]) u' p' /\
      streak u' = Some 0 /\ longest_streak u' = Some 0) /\
  ~ exists u' p' s' l',
      outcome (request 2) (on_day 739000)
        (store (member (-1) 0 0) [record 2 [1] (Some (mkdate 738999))]) u' p' /\
      streak u' = Some s' /\ 1 <= s' /\
      longest_streak u' = Some l' /\ 1 <= l'.
Proof.
  assert (prior (store (member (-1) 0 0) [record 2 [1] (Some (mkdate 738999))])
            (request 2) (member (-1) 0 0) (record 2 [1] (Some (mkdate 738999))))
    as Hprior by example_prior.
  pose proof (complete_day_outcome _ (on_day 739000) _ _ _ Hprior) as Hrun.
  split_and!; [done| |].
  - eexists _, _. split; [exact Hrun|]. by vm_compute.
  - intros (u' & p' & s' & l' & Hout & Hs & Hle & _).
    destruct (outcome_unique _ _ _ _ _ _ _ Hout Hrun) as [-> _].
    vm_compute in Hs. injection Hs as <-. lia.
Qed.

(** C10, as amended.  After every successful call the streak of the user is
    at least 1, and so is the longest streak, whenever the stored streak is
    not negative (as the schema of [User] has it, [streak >= 0]) or the call
    is not a next-day completion: the derivation gives 1, the maximum of 1 and
    the previous streak, or the previous streak plus 1, and only the last one
    depends on the sign of the stored value. *)
Theorem streak_at_least_one payload clk w u p :
  prior w payload u p ->
  (0 <= get (streak u) 0 \/
   forall last, as_date (last_completed_date p) = Some last ->
                days (date_today clk) last <> 1) ->
  exists u' p' s' l',
    outcome payload clk w u' p' /\
    streak u' = Some s' /\ 1 <= s' /\
    longest_streak u' = Some l' /\ 1 <= l'.
Proof.
  intros Hprior Hs. eexists _, _, _, _. split; [by apply complete_day_outcome|].
  cbn [user_update set_user streak longest_streak].
  assert (1 <= streak_logic (date_today clk) (as_date (last_completed_date p))
                 (get (streak u) 0)) as Hnew.
  { unfold streak_logic. destruct (as_date (last_completed_date p)) as [last|]; [|done].
    cbn zeta. destruct Hs as [Hs|Hs].
    - repeat case_decide; lia.
    - specialize (Hs last eq_refl). repeat case_decide; lia. }
  split_and!; [done|done|done|lia].
Qed.

Lemma streak_at_least_one_witness :
  prior (store (member 3 3 35) [record 4 [1; 2; 3] (Some (mkdate 738999))])
    (request 4) (member 3 3 35) (record 4 [1; 2; 3] (Some (mkdate 738999))) /\
  (0 <= get (streak (member 3 3 35)) 0 \/
   forall last,
     as_date (last_completed_date (record 4 [1; 2; 3] (Some (mkdate 738999))))
     = Some last ->
     days (date_today (on_day 739000)) last <> 1) /\
  exists u' p' s' l',
    outcome (request 4) (on_day 739000)
      (store (member 3 3 35) [record 4 [1; 2; 3] (Some (mkdate 738999))]) u' p' /\
    streak u' = Some s' /\ 1 <= s' /\
    longest_streak u' = Some l' /\ 1 <= l'.
Proof.
  split; [example_prior|]. split; [left; simpl; lia|].
  apply (streak_at_least_one (request 4) (on_day 739000)
           (store (member 3 3 35) [record 4 [1; 2; 3] (Some (mkdate 738999))])
           (member 3 3 35) (record 4 [1; 2; 3] (Some (mkdate 738999))));
    [example_prior|left; simpl; lia].
Defined.

(** ** Errors and writes *)

(** C7. When no User document has the email of the payload, the call fails
    with the NotFound client error (status 404) and changes nothing: the
    store is the same, and no write was sent to it. *)
Theorem unknown_user_not_found payload clk w st :
  db w = Some st ->
  Forall (fun u => email u <> CompletePayload.user_email payload) (users st) ->
  exists exn w',
    complete_day payload clk w = (Raise exn, w') /\
    status_code exn = 404 /\
    db w' = Some st /\
    writes w' = writes w.
Proof.
  intros Hdb Hnone. exists user_not_found, w.
  split_and!; [|done..].
  apply complete_day_no_user with st; [done|].
  by apply list_find_None.
Qed.

Lemma unknown_user_not_found_witness :
  db (store (member 4 4 40) [record 5 [1; 2; 3; 4] None])
  = Some {| users := [member 4 4 40]; prog_col := [record 5 [1; 2; 3; 4] None] |} /\
  Forall (fun u => email u <> "bob@example.com") [member 4 4 40] /\
  exists exn w',
    complete_day (CompletePayload.mk "bob@example.com" "ai-productivity" 1)
      (on_day 739000) (store (member 4 4 40) [record 5 [1; 2; 3; 4] None])
    = (Raise exn, w') /\
    status_code exn = 404 /\
    db w' = Some {| users := [member 4 4 40];
                    prog_col := [record 5 [1; 2; 3; 4] None] |} /\
    writes w' = [].
Proof.
  assert (Forall (fun u => email u <> "bob@example.com") [member 4 4 40]) as Hnone.
  { repeat constructor. vm_compute. discriminate. }
  split; [reflexivity|]. split; [exact Hnone|].
  apply (unknown_user_not_found
           (CompletePayload.mk "bob@example.com" "ai-productivity" 1)
           (on_day 739000) (store (member 4 4 40) [record 5 [1; 2; 3; 4] None])
           {| users := [member 4 4 40]; prog_col := [record 5 [1; 2; 3; 4] None] |});
    [reflexivity|exact Hnone].
Defined.

(** C9, as amended.  A successful call sends, in this order, one update of
    the Progress document and one update of the User document; when no
    Progress record exists yet for the pair, these are preceded by one insert
    of the new Progress document.  Nothing else is written. *)
Theorem writes_of_a_call payload clk w u p :
  prior w payload u p ->
  exists resp w' i j t,
    complete_day payload clk w = (Return resp, w') /\
    id <$> user resp = Some i /\
    id <$> progress resp = Some j /\
    writes w' = writes w ++ t /\
    match progress_record w (CompletePayload.user_email payload)
            (CompletePayload.challenge_slug payload) with
    | Some _ => t = [UpdateOne "progress" j; UpdateOne "user" i]
    | None => t = [InsertOne "progress" j; UpdateOne "progress" j; UpdateOne "user" i]
    end.
Proof.
  intros (st & i & Hdb & Hu & _). eexists _, _, i, _, _.
  split; [by apply complete_day_found|].
  split_and!; [done..|]. unfold progress_record.
  rewrite Hdb. cbn [mbind option_bind].
  by destruct (list_find _ (prog_col st)) as [[j q]|].
Qed.

Lemma writes_of_a_call_witness :
  prior (store (member 4 4 40) [record 5 [1; 2; 3; 4] (Some (mkdate 738999))])
    (request 5) (member 4 4 40) (record 5 [1; 2; 3; 4] (Some (mkdate 738999))) /\
  exists resp w' i j t,
    complete_day (request 5) (on_day 739000)
      (store (member 4 4 40) [record 5 [1; 2; 3; 4] (Some (mkdate 738999))])
    = (Return resp, w') /\
    id <$> user resp = Some i /\
    id <$> progress resp = Some j /\
    writes w' = [] ++ t /\
    t = [UpdateOne "progress" j; UpdateOne "user" i].
Proof.
  split; [example_prior|].
  apply (writes_of_a_call (request 5) (on_day 739000)
           (store (member 4 4 40) [record 5 [1; 2; 3; 4] (Some (mkdate 738999))])
           (member 4 4 40) (record 5 [1; 2; 3; 4] (Some (mkdate 738999)))).
  example_prior.
Defined.

(** C9, as stated, fails when the pair has no Progress record yet: the first
    completion of a new user sends three writes, the insert of the Progress
    document and the two updates. *)
Lemma writes_of_a_call_counterexample :
  exists resp w',
    complete_day (request 1) (on_day 739000)
      (store (User "Alice" "alice@example.com" None) [])
    = (Return resp, w') /\
    writes w' = [InsertOne "progress" 0; UpdateOne "progress" 0; UpdateOne "user" 0] /\
    ~ two_updates (writes w').
Proof.
  eexists _, _. split; [vm_compute; reflexivity|]. split; [reflexivity|].
  intros (i & j & Hperm). apply Permutation_length in Hperm. discriminate.
Qed.

(** ** Reproducibility *)



(** ** Sequences of calls *)

Lemma run_cons c calls w :
  run (c :: calls) w = run calls (complete_day c.1 c.2 w).2.
Proof. done. Qed.

Lemma prior_progress_default w st e0 s0 :
  db w = Some st ->
  (prior_progress st e0 s0).2 = default (Progress e0 s0) (progress_record w e0 s0).
Proof.
  intros Hdb. unfold prior_progress, progress_record. rewrite Hdb.
  cbn [mbind option_bind]. by destruct (list_find _ _) as [[j p]|].
Qed.

Lemma current_day_step payload clk w e0 s0 p :
  progress_record w e0 s0 = Some p ->
  exists p',
    progress_record (complete_day payload clk w).2 e0 s0 = Some p' /\
    get (current_day p) 1 <= get (current_day p') 1.
Proof.
  intros Hp.
  destruct (progress_record_step payload clk w e0 s0) as [Heq|(_ & _ & Heq)].
  - exists p. by rewrite Heq.
  - cbn zeta in Heq. rewrite Hp in Heq. eexists. split; [exact Heq|].
    simpl. lia.
Qed.

Lemma current_day_run calls w e0 s0 p :
  progress_record w e0 s0 = Some p ->
  exists p',
    progress_record (run calls w) e0 s0 = Some p' /\
    get (current_day p) 1 <= get (current_day p') 1.
Proof.
  revert w p. induction calls as [|c calls IH]; intros w p Hp.
  - exists p. by split.
  - destruct (current_day_step c.1 c.2 w e0 s0 p Hp) as (p1 & Hp1 & Hle1).
    destruct (IH _ _ Hp1) as (p2 & Hp2 & Hle2).
    exists p2. rewrite run_cons. split; [done|lia].
Qed.

(** C4. After every call the current day of the Progress record is the
    maximum of its previous value and of [day + 1]; hence, along any sequence
    of calls, the current day of the record of a (user email, challenge slug)
    pair never decreases. *)
Theorem current_day_advances payload clk w u p calls :
  prior w payload u p ->
  exists u' p',
    outcome payload clk w u' p' /\
    current_day p' = Some (Z.max (get (current_day p) 1) (CompletePayload.day payload + 1)) /\
    forall e0 s0 q,
      progress_record w e0 s0 = Some q ->
      exists q',
        progress_record (run calls w) e0 s0 = Some q' /\
        get (current_day q) 1 <= get (current_day q') 1.
Proof.
  intros Hprior. eexists _, _. split; [by apply complete_day_outcome|].
  split; [done|]. intros e0 s0 q Hq. by apply current_day_run.
Qed.

Lemma current_day_advances_witness :
  prior (store (member 4 4 40) [record 5 [1; 2; 3; 4] (Some (mkdate 738999))])
    (request 9) (member 4 4 40) (record 5 [1; 2; 3; 4] (Some (mkdate 738999))) /\
  exists u' p',
    outcome (request 9) (on_day 739000)
      (store (member 4 4 40) [record 5 [1; 2; 3; 4] (Some (mkdate 738999))]) u' p' /\
    current_day p' = Some (Z.max 5 (9 + 1)) /\
    forall e0 s0 q,
      progress_record
        (store (member 4 4 40) [record 5 [1; 2; 3; 4] (Some (mkdate 738999))])
        e0 s0 = Some q ->
      exists q',
        progress_record
          (run [(request 9, on_day 739000); (request 2, on_day 739001)]
             (store (member 4 4 40) [record 5 [1; 2; 3; 4] (Some (mkdate 738999))]))
          e0 s0 = Some q' /\
        get (current_day q) 1 <= get (current_day q') 1.
Proof.
  split; [example_prior|].
  apply (current_day_advances (request 9) (on_day 739000)
           (store (member 4 4 40) [record 5 [1; 2; 3; 4] (Some (mkdate 738999))])
           (member 4 4 40) (record 5 [1; 2; 3; 4] (Some (mkdate 738999)))
           [(request 9, on_day 739000); (request 2, on_day 739001)]).
  example_prior.
Defined.

Lemma completed_days_step payload clk w e0 s0 :
  (forall p, progress_record w e0 s0 = Some p -> strictly_increasing (get (completed_days p) [])) ->
  forall p', progress_record (complete_day payload clk w).2 e0 s0 = Some p' ->
    strictly_increasing (get (completed_days p') []).
Proof.
  intros Hinv p' Hp'.
  destruct (progress_record_step payload clk w e0 s0) as [Heq|(_ & _ & Heq)].
  - apply Hinv. by rewrite <- Heq.
  - cbn zeta in Heq. rewrite Hp' in Heq. simplify_eq.
    cbn [progress_update set_progress completed_days get default].
    apply sorted_append_day_strict.
    destruct (progress_record w e0 s0) as [p|]; simpl.
    + by apply strictly_increasing_NoDup, Hinv.
    + apply NoDup_nil_2.
Qed.

Lemma completed_days_run calls w e0 s0 :
  (forall p, progress_record w e0 s0 = Some p -> strictly_increasing (get (completed_days p) [])) ->
  forall p', progress_record (run calls w) e0 s0 = Some p' ->
    strictly_increasing (get (completed_days p') []).
Proof.
  revert w. induction calls as [|c calls IH]; intros w Hinv; [done|].
  rewrite run_cons. apply IH. by apply completed_days_step.
Qed.

(** The record that [get_progress] creates is fresh. *)
Lemma get_progress_fresh w st e0 s0 :
  db w = Some st ->
  progress_record w e0 s0 = None ->
  exists j w',
    get_progress e0 s0 w
    = (Return (true, Some {| id := j; fields := Progress e0 s0 |}), w') /\
    progress_record w' e0 s0 = Some (Progress e0 s0).
Proof.
  intros Hdb Hnone. destruct w as [d ws]; simpl in Hdb; subst d.
  unfold progress_record in Hnone. cbn [db mbind option_bind] in Hnone.
  destruct (list_find (by_pair e0 s0) (prog_col st)) as [[j q]|] eqn:Hq;
    [done|].
  assert (list_find (by_pair e0 s0) (prog_col st ++ [Progress e0 s0])
          = Some (length (prog_col st), Progress e0 s0)) as Hnew
    by (by apply list_find_snoc_None).
  eexists _, _. unfold get_progress, progress_record. run_store.
  rewrite Hq. run_store. rewrite Hnew. cbn [_sanitize]. split; [done|].
  cbn [db prog_col mbind option_bind]. by rewrite Hnew.
Qed.

(** C5. Along every sequence of calls that starts where the Progress record
    of a pair is fresh (or not yet created), the completed days of the record
    are a strictly increasing sequence without duplicates, and a further call
    for the pair stores the sorted union of the previous completed days with
    [{day}]. *)
Theorem completed_days_sorted calls w e0 s0 :
  (forall p, progress_record w e0 s0 = Some p -> get (completed_days p) [] = []) ->
  (forall p,
     progress_record (run calls w) e0 s0 = Some p ->
     strictly_increasing (get (completed_days p) []) /\
     NoDup (get (completed_days p) [])) /\
  (forall payload clk u p,
     CompletePayload.user_email payload = e0 ->
     CompletePayload.challenge_slug payload = s0 ->
     prior (run calls w) payload u p ->
     exists u' p',
       outcome payload clk (run calls w) u' p' /\
       completed_days p'
       = Some (sorted_union (get (completed_days p) []) (CompletePayload.day payload)) /\
       strictly_increasing (get (completed_days p') [])).
Proof.
  intros Hfresh.
  assert (forall p, progress_record (run calls w) e0 s0 = Some p ->
                    strictly_increasing (get (completed_days p) [])) as Hinv.
  { apply completed_days_run. intros p Hp.
    rewrite (Hfresh p Hp). constructor. }
  split.
  - intros p Hp. split; [by apply Hinv|by apply strictly_increasing_NoDup, Hinv].
  - intros payload clk u p <- <- Hprior.
    eexists _, _. split; [by apply complete_day_outcome|].
    assert (NoDup (get (completed_days p) [])) as Hnd.
    { destruct Hprior as (st & i & Hdb & _ & ->).
      rewrite (prior_progress_default _ _ _ _ Hdb).
      destruct (progress_record (run calls w) _ _) as [q|] eqn:Hq; simpl.
      - by apply strictly_increasing_NoDup, Hinv.
      - apply NoDup_nil_2. }
    cbn [progress_update set_progress completed_days get default].
    split; [f_equal; by apply sorted_append_day_union|].
    by apply sorted_append_day_strict.
Qed.

Lemma completed_days_sorted_witness :
  (forall p,
     progress_record
       (store (User "Alice" "alice@example.com" None)
          [Progress "alice@example.com" "ai-productivity"])
       "alice@example.com" "ai-productivity" = Some p ->
     get (completed_days p) [] = []) /\
  (forall p,
     progress_record
       (run [(request 3, on_day 739000); (request 1, on_day 739001);
             (request 3, on_day 739001)]
          (store (User "Alice" "alice@example.com" None)
             [Progress "alice@example.com" "ai-productivity"]))
       "alice@example.com" "ai-productivity" = Some p ->
     strictly_increasing (get (completed_days p) []) /\
     NoDup (get (completed_days p) [])) /\
  (forall payload clk u p,
     CompletePayload.user_email payload = "alice@example.com" ->
     CompletePayload.challenge_slug payload = "ai-productivity" ->
     prior
       (run [(request 3, on_day 739000); (request 1, on_day 739001);
             (request 3, on_day 739001)]
          (store (User "Alice" "alice@example.com" None)
             [Progress "alice@example.com" "ai-productivity"]))
       payload u p ->
     exists u' p',
       outcome payload clk
         (run [(request 3, on_day 739000); (request 1, on_day 739001);
               (request 3, on_day 739001)]
            (store (User "Alice" "alice@example.com" None)
               [Progress "alice@example.com" "ai-productivity"]))
         u' p' /\
       completed_days p'
       = Some (sorted_union (get (completed_days p) []) (CompletePayload.day payload)) /\
       strictly_increasing (get (completed_days p') [])).
Proof.
  split.
  - intros p Hp. vm_compute in Hp. injection Hp as <-. reflexivity.
  - apply (completed_days_sorted
             [(request 3, on_day 739000); (request 1, on_day 739001);
              (request 3, on_day 739001)]
             (store (User "Alice" "alice@example.com" None)
                [Progress "alice@example.com" "ai-productivity"])
             "alice@example.com" "ai-productivity").
    intros p Hp. vm_compute in Hp. injection Hp as <-. reflexivity.
Defined.

(** ** The scenarios of the specification *)

Ltac example_outcome := eexists _, _, _, _; vm_compute; split_and!; reflexivity.

(** A new user completes day 1 for the first time. *)
Example first_completion :
  outcome (request 1) (on_day 739000)
    (store (User "Alice" "alice@example.com" None) [])
    {| name := "Alice"; email := "alice@example.com"; avatar_url := None;
       points := Some 10; streak := Some 1; longest_streak := Some 1;
       badges := []; is_active := true;
       user_updated_at := Some (now_user (on_day 739000)) |}
    {| user_email := "alice@example.com"; challenge_slug := "ai-productivity";
       current_day := Some 2; completed_days := Some [1];
       last_completed_date := Some (IsoString (mkdate 739000));
       progress_updated_at := Some (now_progress (on_day 739000)) |}.
Proof. example_outcome. Qed.

(** A user with a streak of 4 who completed yesterday completes day 5. *)
Example fifth_day_bonus :
  outcome (request 5) (on_day 739000)
    (store (member 4 4 40) [record 5 [1; 2; 3; 4] (Some (mkdate 738999))])
    {| name := "Alice"; email := "alice@example.com"; avatar_url := None;
       points := Some 55; streak := Some 5; longest_streak := Some 5;
       badges := []; is_active := true;
       user_updated_at := Some (now_user (on_day 739000)) |}
    {| user_email := "alice@example.com"; challenge_slug := "ai-productivity";
       current_day := Some 6; completed_days := Some [1; 2; 3; 4; 5];
       last_completed_date := Some (IsoString (mkdate 739000));
       progress_updated_at := Some (now_progress (on_day 739000)) |}.
Proof. example_outcome. Qed.

(** A user with a streak of 7 whose last completion is three days old. *)
Example streak_reset_after_gap :
  outcome (request 8) (on_day 739000)
    (store (member 7 7 75) [record 8 [1; 2; 3; 4; 5; 6; 7] (Some (mkdate 738997))])
    {| name := "Alice"; email := "alice@example.com"; avatar_url := None;
       points := Some 85; streak := Some 1; longest_streak := Some 7;
       badges := []; is_active := true;
       user_updated_at := Some (now_user (on_day 739000)) |}
    {| user_email := "alice@example.com"; challenge_slug := "ai-productivity";
       current_day := Some 9; completed_days := Some [1; 2; 3; 4; 5; 6; 7; 8];
       last_completed_date := Some (IsoString (mkdate 739000));
       progress_updated_at := Some (now_progress (on_day 739000)) |}.
Proof. example_outcome. Qed.

(** Days completed out of order, one of them twice. *)
Example out_of_order_days :
  completed_days
    <$> progress_record
          (run [(request 3, on_day 739000); (request 1, on_day 739001);
                (request 3, on_day 739001)]
             (store (User "Alice" "alice@example.com" None) []))
          "alice@example.com" "ai-productivity"
  = Some (Some [1; 3]).
Proof. vm_compute. reflexivity. Qed.

(** A record that was stored with a duplicate keeps it: the sorted union is
    a property of the records that start fresh. *)
Example stored_duplicate_is_kept :
  completed_days
    <$> progress_record
          (run [(request 2, on_day 739000)]
             (store (member 0 0 0) [record 1 [3; 3] None]))
          "alice@example.com" "ai-productivity"
  = Some (Some [2; 3; 3]).
Proof. vm_compute. reflexivity. Qed.

(** * The other endpoints *)

(** ** Signing in and opening a challenge *)

Lemma lookup_snoc_length {D} (l : list D) (x : D) : (l ++ [x]) !! length l = Some x.
Proof. by apply list_lookup_middle. Qed.

Lemma create_or_get_user_found payload w st i u :
  db w = Some st ->
  list_find (by_email (UpsertUser.email payload)) (users st) = Some (i, u) ->
  create_or_get_user payload w = (Return (true, Some {| id := i; fields := u |}), w).
Proof.
  intros Hdb Hu. destruct w as [d ws]; simpl in Hdb; subst d.
  unfold create_or_get_user. run_store. rewrite Hu. by run_store.
Qed.

Lemma create_or_get_user_new payload w st :
  db w = Some st ->
  list_find (by_email (UpsertUser.email payload)) (users st) = None ->
  let new := User (UpsertUser.name payload) (UpsertUser.email payload)
               (UpsertUser.avatar_url payload) in
  create_or_get_user payload w
  = (Return (true, Some {| id := length (users st); fields := new |}),
     {| db := Some {| users := users st ++ [new]; prog_col := prog_col st |};
        writes := writes w ++ [InsertOne "user" (length (users st))] |}).
Proof.
  intros Hdb Hu new. destruct w as [d ws]; simpl in Hdb; subst d.
  unfold create_or_get_user. run_store. rewrite Hu. run_store.
  by rewrite lookup_snoc_length.
Qed.

Lemma create_or_get_user_not_configured payload w :
  db w = None -> create_or_get_user payload w = (Raise not_configured, w).
Proof.
  intros Hdb. destruct w as [d ws]; simpl in Hdb; subst d.
  unfold create_or_get_user. by run_store.
Qed.

Lemma get_progress_found e0 s0 w st j p :
  db w = Some st ->
  list_find (by_pair e0 s0) (prog_col st) = Some (j, p) ->
  get_progress e0 s0 w = (Return (true, Some {| id := j; fields := p |}), w).
Proof.
  intros Hdb Hp. destruct w as [d ws]; simpl in Hdb; subst d.
  unfold get_progress. run_store. rewrite Hp. by run_store.
Qed.

Lemma get_progress_new e0 s0 w st :
  db w = Some st ->
  list_find (by_pair e0 s0) (prog_col st) = None ->
  get_progress e0 s0 w
  = (Return (true, Some {| id := length (prog_col st); fields := Progress e0 s0 |}),
     {| db := Some {| users := users st; prog_col := prog_col st ++ [Progress e0 s0] |};
        writes := writes w ++ [InsertOne "progress" (length (prog_col st))] |}).
Proof.
  intros Hdb Hp. destruct w as [d ws]; simpl in Hdb; subst d.
  unfold get_progress. run_store. rewrite Hp. run_store.
  by rewrite (list_find_snoc_None (by_pair e0 s0)) by done.
Qed.

Lemma get_progress_not_configured e0 s0 w :
  db w = None -> get_progress e0 s0 w = (Raise not_configured, w).
Proof.
  intros Hdb. destruct w as [d ws]; simpl in Hdb; subst d.
  unfold get_progress. by run_store.
Qed.

(** Every request changes the database by one [step], and only adds to the
    trace of writes. *)
Lemma serve_step c w st :
  db w = Some st ->
  exists st' t,
    db (serve c w) = Some st' /\ step st st' /\ writes (serve c w) = writes w ++ t.
Proof.
  intros Hdb. destruct c as [payload|e0 s0|payload clk]; cbn [serve].
  - destruct (list_find (by_email (UpsertUser.email payload)) (users st))
      as [[i u]|] eqn:Hu.
    + rewrite (create_or_get_user_found _ _ _ _ _ Hdb Hu).
      exists st, []. rewrite app_nil_r. split_and!; [done|constructor|done].
    + rewrite (create_or_get_user_new _ _ _ Hdb Hu).
      eexists _, _. split_and!; [done| |done]. by constructor.
  - destruct (list_find (by_pair e0 s0) (prog_col st)) as [[j p]|] eqn:Hp.
    + rewrite (get_progress_found _ _ _ _ _ _ Hdb Hp).
      exists st, []. rewrite app_nil_r. split_and!; [done|constructor|done].
    + rewrite (get_progress_new _ _ _ _ Hdb Hp).
      eexists _, _. split_and!; [done| |done]. by constructor.
  - destruct (list_find (by_email (CompletePayload.user_email payload)) (users st))
      as [[i u]|] eqn:Hu.
    + rewrite (complete_day_found _ _ _ _ _ _ Hdb Hu).
      eexists _, _. split_and!; [done| |done].
      by apply step_complete.
    + rewrite (complete_day_no_user _ _ _ _ Hdb Hu).
      exists st, []. rewrite app_nil_r. split_and!; [done|constructor|done].
Qed.

Lemma serve_not_configured c w : db w = None -> serve c w = w.
Proof.
  intros Hdb. destruct c; cbn [serve].
  - by rewrite create_or_get_user_not_configured.
  - by rewrite get_progress_not_configured.
  - by rewrite complete_day_not_configured.
Qed.

Lemma serve_all_cons c calls w : serve_all (c :: calls) w = serve_all calls (serve c w).
Proof. done. Qed.

(** A property of the database that every step keeps holds after any
    sequence of requests. *)
Lemma serve_all_invariant (Inv : database -> Prop) :
  (forall st st', Inv st -> step st st' -> Inv st') ->
  forall calls w st,
    db w = Some st -> Inv st ->
    exists st', db (serve_all calls w) = Some st' /\ Inv st'.
Proof.
  intros Hstep calls. induction calls as [|c calls IH]; intros w st Hdb Hinv.
  - by exists st.
  - destruct (serve_step c w st Hdb) as (st1 & t & Hdb1 & Hst & _).
    rewrite serve_all_cons. eapply IH; [done|]. by eapply Hstep.
Qed.

Lemma user_record_find w st e0 u :
  db w = Some st ->
  user_record w e0 = Some u ->
  exists i, list_find (by_email e0) (users st) = Some (i, u).
Proof.
  intros Hdb Hu. unfold user_record in Hu. rewrite Hdb in Hu.
  cbn [mbind option_bind] in Hu.
  destruct (list_find _ _) as [[i x]|]; simplify_eq/=. by exists i.
Qed.

Lemma no_user_find st e0 :
  Forall (fun u => email u <> e0) (users st) ->
  list_find (by_email e0) (users st) = None.
Proof. intros Hnone. by apply list_find_None. Qed.

(** X1. Signing in with the email of an existing user answers with the
    stored document and leaves the store as it is: nothing is written, the
    stats are not reset, and the name and avatar of the payload are
    ignored. *)
Theorem sign_in_keeps_existing_user payload w st u :
  db w = Some st ->
  user_record w (UpsertUser.email payload) = Some u ->
  exists i,
    create_or_get_user payload w
    = (Return (true, Some {| id := i; fields := u |}), w).
Proof.
  intros Hdb Hu. destruct (user_record_find _ _ _ _ Hdb Hu) as [i Hi].
  exists i. by eapply create_or_get_user_found.
Qed.

Lemma sign_in_keeps_existing_user_witness :
  db (store (member 7 7 75) []) = Some {| users := [member 7 7 75]; prog_col := [] |} /\
  user_record (store (member 7 7 75) []) "alice@example.com" = Some (member 7 7 75) /\
  exists i,
    create_or_get_user (UpsertUser.mk "Alice Again" "alice@example.com" None)
      (store (member 7 7 75) [])
    = (Return (true, Some {| id := i; fields := member 7 7 75 |}),
       store (member 7 7 75) []).
Proof.
  split; [reflexivity|]. split; [reflexivity|].
  apply (sign_in_keeps_existing_user
           (UpsertUser.mk "Alice Again" "alice@example.com" None)
           (store (member 7 7 75) [])
           {| users := [member 7 7 75]; prog_col := [] |} (member 7 7 75));
    reflexivity.
Defined.

(** X2. Signing in with an email that no user has inserts one User document,
    after the existing ones, with the name, email and avatar of the payload
    and with no points, no streak and no longest streak; this insert is the
    only write, the Progress records are untouched, and the new document is
    the one answered and the one found for the email from then on. *)
Theorem sign_in_creates_user payload w st :
  db w = Some st ->
  Forall (fun u => email u <> UpsertUser.email payload) (users st) ->
  exists u' w',
    create_or_get_user payload w
    = (Return (true, Some {| id := length (users st); fields := u' |}), w') /\
    db w' = Some {| users := users st ++ [u']; prog_col := prog_col st |} /\
    writes w' = writes w ++ [InsertOne "user" (length (users st))] /\
    user_record w' (UpsertUser.email payload) = Some u' /\
    name u' = UpsertUser.name payload /\
    email u' = UpsertUser.email payload /\
    avatar_url u' = UpsertUser.avatar_url payload /\
    points u' = Some 0 /\ streak u' = Some 0 /\ longest_streak u' = Some 0.
Proof.
  intros Hdb Hnone. apply no_user_find in Hnone.
  eexists _, _. split; [by apply create_or_get_user_new|].
  split_and!; try done.
  unfold user_record. cbn [db users mbind option_bind].
  by rewrite (list_find_snoc_None (by_email (UpsertUser.email payload))).
Qed.

Lemma sign_in_creates_user_witness :
  db (store (member 7 7 75) []) = Some {| users := [member 7 7 75]; prog_col := [] |} /\
  Forall (fun u => email u <> "bob@example.com") [member 7 7 75] /\
  exists u' w',
    create_or_get_user (UpsertUser.mk "Bob" "bob@example.com" None)
      (store (member 7 7 75) [])
    = (Return (true, Some {| id := 1; fields := u' |}), w') /\
    db w' = Some {| users := [member 7 7 75] ++ [u']; prog_col := [] |} /\
    writes w' = [] ++ [InsertOne "user" 1] /\
    user_record w' "bob@example.com" = Some u' /\
    name u' = "Bob" /\
    email u' = "bob@example.com" /\
    avatar_url u' = None /\
    points u' = Some 0 /\ streak u' = Some 0 /\ longest_streak u' = Some 0.
Proof.
  assert (Forall (fun u => email u <> "bob@example.com") [member 7 7 75]) as Hnone.
  { repeat constructor. vm_compute. discriminate. }
  split; [reflexivity|]. split; [exact Hnone|].
  apply (sign_in_creates_user (UpsertUser.mk "Bob" "bob@example.com" None)
           (store (member 7 7 75) [])
           {| users := [member 7 7 75]; prog_col := [] |});
    [reflexivity|exact Hnone].
Defined.

(** X3. Signing in is idempotent: a second request with the same payload
    gives the same answer as the first and changes nothing more, whatever
    the store (configured or not, with or without the user). *)
Theorem sign_in_idempotent payload w :
  create_or_get_user payload (create_or_get_user payload w).2
  = create_or_get_user payload w.
Proof.
  destruct (db w) as [st|] eqn:Hdb.
  - destruct (list_find (by_email (UpsertUser.email payload)) (users st))
      as [[i u]|] eqn:Hu.
    + rewrite (create_or_get_user_found _ _ _ _ _ Hdb Hu). cbn [snd].
      by eapply create_or_get_user_found.
    + rewrite (create_or_get_user_new _ _ _ Hdb Hu). cbn [snd].
      eapply create_or_get_user_found; [done|]. cbn [users].
      by apply list_find_snoc_None.
  - rewrite (create_or_get_user_not_configured _ _ Hdb). cbn [snd].
    by apply create_or_get_user_not_configured.
Qed.

(** X4. Opening a challenge is idempotent: a second [get_progress] for the
    same pair gives the same answer as the first and changes nothing more,
    whatever the store. *)
Theorem get_progress_idempotent e0 s0 w :
  get_progress e0 s0 (get_progress e0 s0 w).2 = get_progress e0 s0 w.
Proof.
  destruct (db w) as [st|] eqn:Hdb.
  - destruct (list_find (by_pair e0 s0) (prog_col st)) as [[j p]|] eqn:Hp.
    + rewrite (get_progress_found _ _ _ _ _ _ Hdb Hp). cbn [snd].
      by eapply get_progress_found.
    + rewrite (get_progress_new _ _ _ _ Hdb Hp). cbn [snd].
      eapply get_progress_found; [done|]. cbn [prog_col].
      by apply list_find_snoc_None.
  - rewrite (get_progress_not_configured _ _ _ Hdb). cbn [snd].
    by apply get_progress_not_configured.
Qed.

(** X5. [get_progress] does not check that the user exists: in a configured
    store it always answers with a Progress record of the pair, the stored
    one (and then nothing is written) or a fresh one that it inserts (one
    write); it never touches the User documents. *)
Theorem get_progress_always_answers e0 s0 w st :
  db w = Some st ->
  exists j p w' st',
    get_progress e0 s0 w = (Return (true, Some {| id := j; fields := p |}), w') /\
    db w' = Some st' /\
    users st' = users st /\
    progress_record w' e0 s0 = Some p /\
    user_email p = e0 /\ challenge_slug p = s0 /\
    match progress_record w e0 s0 with
    | Some q => p = q /\ w' = w
    | None =>
        p = Progress e0 s0 /\
        prog_col st' = prog_col st ++ [p] /\
        writes w' = writes w ++ [InsertOne "progress" j]
    end.
Proof.
  intros Hdb. unfold progress_record. rewrite Hdb. cbn [mbind option_bind].
  destruct (list_find (by_pair e0 s0) (prog_col st)) as [[j p]|] eqn:Hp.
  - exists j, p, w, st. split; [by eapply get_progress_found|].
    rewrite Hdb. cbn [mbind option_bind]. rewrite Hp.
    apply list_find_Some in Hp as (_ & [? ?] & _). by split_and!.
  - eexists _, _, _, _. split; [by apply get_progress_new|].
    cbn [db users prog_col mbind option_bind fmap option_fmap option_map].
    rewrite (list_find_snoc_None (by_pair e0 s0)) by done.
    by split_and!.
Qed.

Lemma get_progress_always_answers_witness :
  db empty_store = Some {| users := []; prog_col := [] |} /\
  exists j p w' st',
    get_progress "nobody@example.com" "ai-productivity" empty_store
    = (Return (true, Some {| id := j; fields := p |}), w') /\
    db w' = Some st' /\
    users st' = [] /\
    progress_record w' "nobody@example.com" "ai-productivity" = Some p /\
    user_email p = "nobody@example.com" /\ challenge_slug p = "ai-productivity" /\
    p = Progress "nobody@example.com" "ai-productivity" /\
    prog_col st' = [] ++ [p] /\
    writes w' = [] ++ [InsertOne "progress" j].
Proof.
  split; [reflexivity|].
  apply (get_progress_always_answers "nobody@example.com" "ai-productivity"
           empty_store {| users := []; prog_col := [] |}).
  reflexivity.
Defined.

(** X6. Opening the challenge first makes no difference to a completion:
    for a user who exists, [complete_day] after [get_progress] for the same
    pair gives the same answer and the same database as [complete_day]
    alone (the record that one creates lazily is the record that the other
    has created). *)
Theorem open_then_complete payload clk w st u :
  db w = Some st ->
  user_record w (CompletePayload.user_email payload) = Some u ->
  let opened :=
    (get_progress (CompletePayload.user_email payload)
       (CompletePayload.challenge_slug payload) w).2 in
  (complete_day payload clk opened).1 = (complete_day payload clk w).1 /\
  db (complete_day payload clk opened).2 = db (complete_day payload clk w).2.
Proof.
  intros Hdb Hu opened. subst opened.
  destruct (user_record_find _ _ _ _ Hdb Hu) as [i Hi].
  set (e := CompletePayload.user_email payload) in *.
  set (slug := CompletePayload.challenge_slug payload) in *.
  destruct (list_find (by_pair e slug) (prog_col st)) as [[j p]|] eqn:Hp.
  - by rewrite (get_progress_found _ _ _ _ _ _ Hdb Hp).
  - rewrite (get_progress_new _ _ _ _ Hdb Hp). cbn [snd].
    rewrite (complete_day_found payload clk w st i u Hdb Hi).
    erewrite (complete_day_found payload clk _ _ i u); [|done|done].
    fold e slug. unfold prior_progress, prior_prog_col. cbn [prog_col users].
    rewrite (list_find_snoc_None (by_pair e slug)) by done.
    rewrite Hp. by split.
Qed.

Lemma open_then_complete_witness :
  db (store (member 4 4 40) []) = Some {| users := [member 4 4 40]; prog_col := [] |} /\
  user_record (store (member 4 4 40) []) "alice@example.com" = Some (member 4 4 40) /\
  (complete_day (request 1) (on_day 739000)
     (get_progress "alice@example.com" "ai-productivity" (store (member 4 4 40) [])).2).1
  = (complete_day (request 1) (on_day 739000) (store (member 4 4 40) [])).1 /\
  db (complete_day (request 1) (on_day 739000)
        (get_progress "alice@example.com" "ai-productivity"
           (store (member 4 4 40) [])).2).2
  = db (complete_day (request 1) (on_day 739000) (store (member 4 4 40) [])).2.
Proof.
  split; [reflexivity|]. split; [reflexivity|].
  apply (open_then_complete (request 1) (on_day 739000) (store (member 4 4 40) [])
           {| users := [member 4 4 40]; prog_col := [] |} (member 4 4 40));
    reflexivity.
Defined.

(** X7. After signing in, a completion for the same email never fails with
    NotFound: in a configured store it returns normally. *)
Theorem sign_in_then_complete signin payload clk w st :
  db w = Some st ->
  UpsertUser.email signin = CompletePayload.user_email payload ->
  exists resp w',
    complete_day payload clk (create_or_get_user signin w).2 = (Return resp, w') /\
    ok resp = true.
Proof.
  intros Hdb He.
  destruct (list_find (by_email (UpsertUser.email signin)) (users st))
    as [[i u]|] eqn:Hu.
  - rewrite (create_or_get_user_found _ _ _ _ _ Hdb Hu). cbn [snd].
    rewrite He in Hu. eexists _, _. split; [by eapply complete_day_found|done].
  - rewrite (create_or_get_user_new _ _ _ Hdb Hu). cbn [snd].
    eexists _, _. split.
    { eapply complete_day_found; [reflexivity|]. cbn [users]. rewrite <- He.
      by apply list_find_snoc_None. }
    done.
Qed.

Lemma sign_in_then_complete_witness :
  db empty_store = Some {| users := []; prog_col := [] |} /\
  UpsertUser.email (UpsertUser.mk "Alice" "alice@example.com" None)
  = CompletePayload.user_email (request 1) /\
  exists resp w',
    complete_day (request 1) (on_day 739000)
      (create_or_get_user (UpsertUser.mk "Alice" "alice@example.com" None)
         empty_store).2
    = (Return resp, w') /\
    ok resp = true.
Proof.
  split; [reflexivity|]. split; [reflexivity|].
  apply (sign_in_then_complete (UpsertUser.mk "Alice" "alice@example.com" None)
           (request 1) (on_day 739000) empty_store
           {| users := []; prog_col := [] |});
    reflexivity.
Defined.

(** X8. When the store is not configured, the three endpoints fail with
    status 500 ("Database not configured") and leave the world as it is:
    nothing is read or written. *)
Theorem not_configured_fails signin e0 s0 payload clk w :
  db w = None ->
  create_or_get_user signin w = (Raise not_configured, w) /\
  get_progress e0 s0 w = (Raise not_configured, w) /\
  complete_day payload clk w = (Raise not_configured, w) /\
  status_code not_configured = 500.
Proof.
  intros Hdb. split_and!; [..|done].
  - by apply create_or_get_user_not_configured.
  - by apply get_progress_not_configured.
  - by apply complete_day_not_configured.
Qed.

Lemma not_configured_fails_witness :
  db {| db := None; writes := [] |} = None /\
  create_or_get_user (UpsertUser.mk "Alice" "alice@example.com" None)
    {| db := None; writes := [] |}
  = (Raise not_configured, {| db := None; writes := [] |}) /\
  get_progress "alice@example.com" "ai-productivity" {| db := None; writes := [] |}
  = (Raise not_configured, {| db := None; writes := [] |}) /\
  complete_day (request 1) (on_day 739000) {| db := None; writes := [] |}
  = (Raise not_configured, {| db := None; writes := [] |}) /\
  status_code not_configured = 500.
Proof.
  split; [reflexivity|].
  apply (not_configured_fails (UpsertUser.mk "Alice" "alice@example.com" None)
           "alice@example.com" "ai-productivity" (request 1) (on_day 739000)
           {| db := None; writes := [] |}).
  reflexivity.
Defined.

(** ** Invariants of the store *)

Lemma fmap_alter_key {A B} (key : A -> B) (f : A -> A) (i : nat) (l : list A) :
  (forall x, key (f x) = key x) -> key <$> alter f i l = key <$> l.
Proof.
  intros Hf. revert i. induction l as [|x l IH]; intros [|i]; csimpl; [done..| |].
  - by rewrite Hf.
  - f_equal. apply IH.
Qed.

Lemma no_email_not_elem e0 (l : list user_doc) :
  list_find (by_email e0) l = None -> e0 ∉ email <$> l.
Proof.
  rewrite list_find_None, Forall_forall. intros Hnone Hin.
  apply list_elem_of_fmap in Hin as (u & -> & Hu). by apply (Hnone u).
Qed.

Lemma no_pair_not_elem e0 s0 (l : list progress_doc) :
  list_find (by_pair e0 s0) l = None -> (e0, s0) ∉ pair_of <$> l.
Proof.
  rewrite list_find_None, Forall_forall. intros Hnone Hin.
  apply list_elem_of_fmap in Hin as (p & Hp & Hin). apply (Hnone p Hin).
  unfold pair_of in Hp. by simplify_eq.
Qed.

Lemma NoDup_snoc_fresh {B} (l : list B) (x : B) : NoDup l -> x ∉ l -> NoDup (l ++ [x]).
Proof.
  intros Hl Hx. apply NoDup_app. split_and!; [done| |apply NoDup_singleton].
  intros y Hy ->%list_elem_of_singleton. done.
Qed.

Lemma prior_prog_col_pairs st e0 s0 :
  NoDup (pair_of <$> prog_col st) -> NoDup (pair_of <$> prior_prog_col st e0 s0).
Proof.
  intros Hnd. unfold prior_prog_col.
  destruct (list_find (by_pair e0 s0) (prog_col st)) as [[j p]|] eqn:Hp; [done|].
  rewrite fmap_app. apply NoDup_snoc_fresh; [done|]. by apply no_pair_not_elem.
Qed.

Lemma unique_documents_step st st' :
  unique_documents st -> step st st' -> unique_documents st'.
Proof.
  intros [Hu Hp] Hstep. destruct Hstep as [|n e0 a Hnone|e0 s0 Hnone|payload clk i u Hfound];
    unfold unique_documents; cbn [users prog_col].
  - done.
  - split; [|done]. rewrite fmap_app. apply NoDup_snoc_fresh; [done|].
    by apply no_email_not_elem.
  - split; [done|]. rewrite fmap_app. apply NoDup_snoc_fresh; [done|].
    by apply no_pair_not_elem.
  - subst e slug jp. split.
    + by rewrite fmap_alter_key.
    + rewrite fmap_alter_key by done. by apply prior_prog_col_pairs.
Qed.

(** X9. At most one document per key: in every store reached by any sequence
    of requests to the three endpoints from a store where no two users share
    an email and no two Progress records share a (user email, challenge
    slug) pair, this is still so.  The empty store is such a store. *)
Theorem documents_stay_unique calls w st :
  db w = Some st ->
  unique_documents st ->
  exists st', db (serve_all calls w) = Some st' /\ unique_documents st'.
Proof. apply serve_all_invariant. apply unique_documents_step. Qed.

Lemma documents_stay_unique_witness :
  db empty_store = Some {| users := []; prog_col := [] |} /\
  unique_documents {| users := []; prog_col := [] |} /\
  exists st',
    db (serve_all
          [PostComplete (request 1) (on_day 739000);
           PostUsers (UpsertUser.mk "Alice" "alice@example.com" None);
           GetProgress "alice@example.com" "ai-productivity";
           PostUsers (UpsertUser.mk "Alice" "alice@example.com" None);
           PostComplete (request 1) (on_day 739000);
           PostComplete (request 2) (on_day 739001)]
          empty_store) = Some st' /\
    unique_documents st'.
Proof.
  assert (unique_documents {| users := []; prog_col := [] |}) as Hinit
    by (split; constructor).
  split; [reflexivity|]. split; [exact Hinit|].
  apply (documents_stay_unique
           [PostComplete (request 1) (on_day 739000);
            PostUsers (UpsertUser.mk "Alice" "alice@example.com" None);
            GetProgress "alice@example.com" "ai-productivity";
            PostUsers (UpsertUser.mk "Alice" "alice@example.com" None);
            PostComplete (request 1) (on_day 739000);
            PostComplete (request 2) (on_day 739001)]
           empty_store {| users := []; prog_col := [] |});
    [reflexivity|exact Hinit].
Defined.

Lemma progress_ok_fresh e0 s0 : progress_ok (Progress e0 s0).
Proof. unfold progress_ok. simpl. split_and!; [constructor|lia|constructor]. Qed.

Lemma progress_update_ok payload clk p x :
  progress_ok p -> progress_ok (progress_update payload clk p x).
Proof.
  intros (Hinc & Hcur & Hall). unfold progress_ok.
  change (get (completed_days (progress_update payload clk p x)) [])
    with (sorted (append_day (CompletePayload.day payload) (get (completed_days p) []))).
  change (get (current_day (progress_update payload clk p x)) 1)
    with (Z.max (get (current_day p) 1) (CompletePayload.day payload + 1)).
  split_and!.
  - apply sorted_append_day_strict. by apply strictly_increasing_NoDup.
  - lia.
  - rewrite Forall_forall in Hall |- *. intros d Hd.
    apply elem_of_sorted, elem_of_append_day in Hd as [Hd| ->].
    + specialize (Hall d Hd). simpl in Hall. lia.
    + lia.
Qed.

Lemma progress_ok_step st st' :
  Forall progress_ok (prog_col st) -> step st st' -> Forall progress_ok (prog_col st').
Proof.
  intros Hall Hstep.
  destruct Hstep as [|n e0 a Hnone|e0 s0 Hnone|payload clk i u Hfound]; cbn [users prog_col].
  - done.
  - done.
  - apply Forall_app. split; [done|]. repeat constructor. apply progress_ok_fresh.
  - assert (Forall progress_ok
              (prior_prog_col st (CompletePayload.user_email payload)
                 (CompletePayload.challenge_slug payload))) as Hprior.
    { unfold prior_prog_col. destruct (list_find (by_pair _ _) (prog_col st)); [done|].
      apply Forall_app. split; [done|]. repeat constructor. apply progress_ok_fresh. }
    apply Forall_alter; [done|]. intros x Hx _.
    apply progress_update_ok. subst e slug jp.
    rewrite Forall_lookup in Hprior.
    eapply Hprior, prior_progress_lookup.
Qed.

(** X10. Every Progress record is well formed in every store reached from
    a store of well-formed records (the empty store, say) by any sequence of
    requests: its completed days are strictly increasing, its current day is
    at least 1, and every completed day is below the current day. *)
Theorem progress_records_well_formed calls w st :
  db w = Some st ->
  Forall progress_ok (prog_col st) ->
  exists st',
    db (serve_all calls w) = Some st' /\ Forall progress_ok (prog_col st').
Proof.
  apply (serve_all_invariant (fun st => Forall progress_ok (prog_col st))).
  apply progress_ok_step.
Qed.

Lemma progress_records_well_formed_witness :
  db empty_store = Some {| users := []; prog_col := [] |} /\
  Forall progress_ok [] /\
  exists st',
    db (serve_all
          [PostUsers (UpsertUser.mk "Alice" "alice@example.com" None);
           PostComplete (request 7) (on_day 739000);
           PostComplete (request 2) (on_day 739000);
           PostComplete (request 7) (on_day 739003)]
          empty_store) = Some st' /\
    Forall progress_ok (prog_col st').
Proof.
  split; [reflexivity|]. split; [constructor|].
  apply (progress_records_well_formed
           [PostUsers (UpsertUser.mk "Alice" "alice@example.com" None);
            PostComplete (request 7) (on_day 739000);
            PostComplete (request 2) (on_day 739000);
            PostComplete (request 7) (on_day 739003)]
           empty_store {| users := []; prog_col := [] |});
    [reflexivity|constructor].
Defined.

Lemma streak_logic_bounds today last s :
  0 <= s -> 1 <= streak_logic today last s <= s + 1.
Proof.
  intros Hs. unfold streak_logic. destruct last; [|lia].
  cbn zeta. repeat case_decide; lia.
Qed.

Lemma points_logic_bounds pts s : pts + 10 <= points_logic pts s <= pts + 15.
Proof. unfold points_logic. case_decide; lia. Qed.

Lemma user_update_sound payload clk u p x :
  stats_sound u -> stats_sound (user_update payload clk u p x).
Proof.
  intros [[Hs Hl] Hp]. unfold stats_sound.
  change (get (streak (user_update payload clk u p x)) 0)
    with (streak_logic (date_today clk) (as_date (last_completed_date p))
            (get (streak u) 0)).
  change (get (longest_streak (user_update payload clk u p x)) 0)
    with (Z.max (get (longest_streak u) 0)
            (streak_logic (date_today clk) (as_date (last_completed_date p))
               (get (streak u) 0))).
  change (get (points (user_update payload clk u p x)) 0)
    with (points_logic (get (points u) 0)
            (streak_logic (date_today clk) (as_date (last_completed_date p))
               (get (streak u) 0))).
  pose proof (streak_logic_bounds (date_today clk)
                (as_date (last_completed_date p)) _ Hs).
  pose proof (points_logic_bounds (get (points u) 0)
                (streak_logic (date_today clk) (as_date (last_completed_date p))
                   (get (streak u) 0))).
  lia.
Qed.

Lemma stats_sound_step st st' :
  Forall stats_sound (users st) -> step st st' -> Forall stats_sound (users st').
Proof.
  intros Hall Hstep.
  destruct Hstep as [|n e0 a Hnone|e0 s0 Hnone|payload clk i u Hfound]; cbn [users prog_col].
  - done.
  - apply Forall_app. split; [done|]. repeat constructor; simpl; lia.
  - done.
  - subst e slug jp. apply Forall_alter; [done|]. intros x Hx _.
    apply user_update_sound.
    apply list_find_lookup in Hfound. rewrite Forall_lookup in Hall.
    by eapply Hall.
Qed.

(** X11. The stats of every user are sound in every store reached from a
    store of sound stats (the empty store, say) by any sequence of requests:
    the streak is between 0 and the longest streak, and the points are at
    least 10 times the longest streak. *)
Theorem user_stats_sound calls w st :
  db w = Some st ->
  Forall stats_sound (users st) ->
  exists st',
    db (serve_all calls w) = Some st' /\ Forall stats_sound (users st').
Proof.
  apply (serve_all_invariant (fun st => Forall stats_sound (users st))).
  apply stats_sound_step.
Qed.

Lemma user_stats_sound_witness :
  db empty_store = Some {| users := []; prog_col := [] |} /\
  Forall stats_sound [] /\
  exists st',
    db (serve_all
          [PostUsers (UpsertUser.mk "Alice" "alice@example.com" None);
           PostComplete (request 1) (on_day 739000);
           PostComplete (request 2) (on_day 739001);
           PostComplete (request 3) (on_day 739005)]
          empty_store) = Some st' /\
    Forall stats_sound (users st').
Proof.
  split; [reflexivity|]. split; [constructor|].
  apply (user_stats_sound
           [PostUsers (UpsertUser.mk "Alice" "alice@example.com" None);
            PostComplete (request 1) (on_day 739000);
            PostComplete (request 2) (on_day 739001);
            PostComplete (request 3) (on_day 739005)]
           empty_store {| users := []; prog_col := [] |});
    [reflexivity|constructor].
Defined.

(** ** What requests never undo *)

Lemma user_record_db w e0 u :
  user_record w e0 = Some u -> exists st, db w = Some st.
Proof. unfold user_record. destruct (db w); [eauto|done]. Qed.

Lemma progress_record_db w e0 s0 p :
  progress_record w e0 s0 = Some p -> exists st, db w = Some st.
Proof. unfold progress_record. destruct (db w); [eauto|done]. Qed.

(** The effect of a request on the User document of an email: the document
    is left as it is, or it is updated by a completion of this user. *)
Lemma serve_user_record c w e0 u :
  user_record w e0 = Some u ->
  exists u',
    user_record (serve c w) e0 = Some u' /\
    (u' = u \/ exists payload clk p, u' = user_update payload clk u p u).
Proof.
  intros Hu. destruct (user_record_db _ _ _ Hu) as [st Hdb].
  destruct (user_record_find _ _ _ _ Hdb Hu) as [i Hi].
  destruct c as [payload|e1 s1|payload clk]; cbn [serve].
  - destruct (list_find (by_email (UpsertUser.email payload)) (users st))
      as [[i1 u1]|] eqn:Hu1.
    + rewrite (create_or_get_user_found _ _ _ _ _ Hdb Hu1). eauto.
    + rewrite (create_or_get_user_new _ _ _ Hdb Hu1). exists u. split; [|by left].
      unfold user_record. cbn [snd db users mbind option_bind].
      by rewrite (list_find_app_l _ _ _ _ _ Hi).
  - destruct (list_find (by_pair e1 s1) (prog_col st)) as [[j p]|] eqn:Hp.
    + rewrite (get_progress_found _ _ _ _ _ _ Hdb Hp). eauto.
    + rewrite (get_progress_new _ _ _ _ Hdb Hp). exists u. split; [|by left].
      unfold user_record. cbn [snd db users mbind option_bind]. by rewrite Hi.
  - destruct (list_find (by_email (CompletePayload.user_email payload)) (users st))
      as [[i1 u1]|] eqn:Hu1.
    + rewrite (complete_day_found _ _ _ _ _ _ Hdb Hu1).
      unfold user_record. cbn [snd db users mbind option_bind].
      rewrite (list_find_alter (by_email e0)) by done. rewrite Hi.
      cbn [fmap option_fmap option_map fst snd].
      destruct (decide (i = i1)) as [->|]; [|eauto].
      eexists. split; [done|]. right.
      apply list_find_lookup in Hi. apply list_find_lookup in Hu1.
      rewrite Hi in Hu1. simplify_eq. by eexists _, _, _.
    + rewrite (complete_day_no_user _ _ _ _ Hdb Hu1). eauto.
Qed.

(** X12. A user is never lost and never loses: along any sequence of
    requests, the User document of an email stays the document of this
    email, keeps its name, and its points and longest streak never
    decrease. *)
Theorem user_never_loses calls w e0 u :
  user_record w e0 = Some u ->
  exists u',
    user_record (serve_all calls w) e0 = Some u' /\
    name u' = name u /\ email u' = email u /\
    get (points u) 0 <= get (points u') 0 /\
    get (longest_streak u) 0 <= get (longest_streak u') 0.
Proof.
  revert w u. induction calls as [|c calls IH]; intros w u Hu.
  - exists u. by split_and!.
  - destruct (serve_user_record c w e0 u Hu) as (u1 & Hu1 & Hrel).
    destruct (IH _ _ Hu1) as (u2 & Hu2 & Hn & He & Hp & Hl).
    exists u2. rewrite serve_all_cons. split; [done|].
    destruct Hrel as [->|(payload & clk & p & ->)]; [by split_and!|].
    cbn [user_update set_user name email] in Hn, He.
    change (get (points (user_update payload clk u p u)) 0)
      with (points_logic (get (points u) 0)
              (streak_logic (date_today clk) (as_date (last_completed_date p))
                 (get (streak u) 0))) in Hp.
    change (get (longest_streak (user_update payload clk u p u)) 0)
      with (Z.max (get (longest_streak u) 0)
              (streak_logic (date_today clk) (as_date (last_completed_date p))
                 (get (streak u) 0))) in Hl.
    pose proof (points_logic_bounds (get (points u) 0)
                  (streak_logic (date_today clk) (as_date (last_completed_date p))
                     (get (streak u) 0))).
    split_and!; [done|done|lia|lia].
Qed.

Lemma user_never_loses_witness :
  user_record (store (member 7 7 75) []) "alice@example.com" = Some (member 7 7 75) /\
  exists u',
    user_record
      (serve_all
         [PostComplete (request 1) (on_day 739000);
          PostUsers (UpsertUser.mk "Impostor" "alice@example.com" None);
          PostComplete (request 2) (on_day 739009)]
         (store (member 7 7 75) []))
      "alice@example.com" = Some u' /\
    name u' = "Alice" /\ email u' = "alice@example.com" /\
    75 <= get (points u') 0 /\
    7 <= get (longest_streak u') 0.
Proof.
  split; [reflexivity|].
  apply (user_never_loses
           [PostComplete (request 1) (on_day 739000);
            PostUsers (UpsertUser.mk "Impostor" "alice@example.com" None);
            PostComplete (request 2) (on_day 739009)]
           (store (member 7 7 75) []) "alice@example.com" (member 7 7 75)).
  reflexivity.
Defined.

(** The effect of a request on the Progress record of a pair that has one. *)
Lemma serve_progress_record c w e0 s0 p :
  progress_record w e0 s0 = Some p ->
  exists p',
    progress_record (serve c w) e0 s0 = Some p' /\
    (p' = p \/ exists payload clk, p' = progress_update payload clk p p).
Proof.
  intros Hp. destruct (progress_record_db _ _ _ _ Hp) as [st Hdb].
  destruct c as [payload|e1 s1|payload clk]; cbn [serve].
  - destruct (list_find (by_email (UpsertUser.email payload)) (users st))
      as [[i1 u1]|] eqn:Hu1.
    + rewrite (create_or_get_user_found _ _ _ _ _ Hdb Hu1). eauto.
    + rewrite (create_or_get_user_new _ _ _ Hdb Hu1). exists p. split; [|by left].
      unfold progress_record in *. rewrite Hdb in Hp. done.
  - destruct (list_find (by_pair e1 s1) (prog_col st)) as [[j q]|] eqn:Hq.
    + rewrite (get_progress_found _ _ _ _ _ _ Hdb Hq). eauto.
    + rewrite (get_progress_new _ _ _ _ Hdb Hq). exists p. split; [|by left].
      unfold progress_record in *. rewrite Hdb in Hp.
      cbn [snd db prog_col mbind option_bind] in *.
      destruct (list_find (by_pair e0 s0) (prog_col st)) as [[j q]|] eqn:Hj;
        [|done].
      by rewrite (list_find_app_l _ _ _ _ _ Hj).
  - destruct (progress_record_step payload clk w e0 s0) as [Heq|(_ & _ & Heq)].
    + exists p. split; [by rewrite Heq|by left].
    + cbn zeta in Heq. rewrite Hp in Heq. eexists. split; [exact Heq|].
      right. by exists payload, clk.
Qed.

(** X13. A completed day is never un-completed: along any sequence of
    requests, the Progress record of a pair stays the record of this pair,
    and every day in its completed days stays there. *)
Theorem completed_days_are_kept calls w e0 s0 p :
  progress_record w e0 s0 = Some p ->
  exists p',
    progress_record (serve_all calls w) e0 s0 = Some p' /\
    user_email p' = user_email p /\ challenge_slug p' = challenge_slug p /\
    forall d, d ∈ get (completed_days p) [] -> d ∈ get (completed_days p') [].
Proof.
  revert w p. induction calls as [|c calls IH]; intros w p Hp.
  - exists p. by split_and!.
  - destruct (serve_progress_record c w e0 s0 p Hp) as (p1 & Hp1 & Hrel).
    destruct (IH _ _ Hp1) as (p2 & Hp2 & He & Hs & Hkept).
    exists p2. rewrite serve_all_cons. split; [done|].
    destruct Hrel as [->|(payload & clk & ->)]; [by split_and!|].
    split_and!; [done..|]. intros d Hd. apply Hkept.
    change (get (completed_days (progress_update payload clk p p)) [])
      with (sorted (append_day (CompletePayload.day payload)
                      (get (completed_days p) []))).
    apply elem_of_sorted, elem_of_append_day. by left.
Qed.

Lemma completed_days_are_kept_witness :
  progress_record (store (member 2 2 20) [record 9 [3; 8] (Some (mkdate 738999))])
    "alice@example.com" "ai-productivity"
  = Some (record 9 [3; 8] (Some (mkdate 738999))) /\
  exists p',
    progress_record
      (serve_all
         [PostComplete (request 1) (on_day 739000);
          GetProgress "alice@example.com" "ai-productivity";
          PostComplete (request 8) (on_day 739000)]
         (store (member 2 2 20) [record 9 [3; 8] (Some (mkdate 738999))]))
      "alice@example.com" "ai-productivity" = Some p' /\
    user_email p' = "alice@example.com" /\ challenge_slug p' = "ai-productivity" /\
    forall d, d ∈ [3; 8] -> d ∈ get (completed_days p') [].
Proof.
  split; [reflexivity|].
  apply (completed_days_are_kept
           [PostComplete (request 1) (on_day 739000);
            GetProgress "alice@example.com" "ai-productivity";
            PostComplete (request 8) (on_day 739000)]
           (store (member 2 2 20) [record 9 [3; 8] (Some (mkdate 738999))])
           "alice@example.com" "ai-productivity"
           (record 9 [3; 8] (Some (mkdate 738999)))).
  reflexivity.
Defined.

(** ** More on one completion *)

(** X14. Whatever list of completed days is stored (sorted or not, with or
    without duplicates), a completion stores a list in ascending order that
    contains the day, and that is a rearrangement of the previous list, with
    the day added when it was not there: no day is dropped and no duplicate
    is introduced. *)
Theorem completed_day_is_recorded payload clk w u p :
  prior w payload u p ->
  exists u' p' l',
    outcome payload clk w u' p' /\
    completed_days p' = Some l' /\
    StronglySorted Z.le l' /\
    CompletePayload.day payload ∈ l' /\
    (CompletePayload.day payload ∈ get (completed_days p) [] ->
     l' ≡ₚ get (completed_days p) []) /\
    (CompletePayload.day payload ∉ get (completed_days p) [] ->
     l' ≡ₚ CompletePayload.day payload :: get (completed_days p) []).
Proof.
  intros Hprior. eexists _, _, _. split; [by apply complete_day_outcome|].
  cbn [progress_update set_progress completed_days]. split; [done|].
  split_and!.
  - apply sorted_le.
  - apply elem_of_sorted, elem_of_append_day. by right.
  - intros Hin. rewrite sorted_perm. unfold append_day. by rewrite decide_True.
  - intros Hnot. rewrite sorted_perm. unfold append_day.
    rewrite decide_False by done. by rewrite Permutation_app_comm.
Qed.

Lemma completed_day_is_recorded_witness :
  prior (store (member 2 2 20) [record 9 [8; 3; 3] None]) (request 5)
    (member 2 2 20) (record 9 [8; 3; 3] None) /\
  exists u' p' l',
    outcome (request 5) (on_day 739000)
      (store (member 2 2 20) [record 9 [8; 3; 3] None]) u' p' /\
    completed_days p' = Some l' /\
    StronglySorted Z.le l' /\
    5 ∈ l' /\
    (5 ∈ [8; 3; 3] -> l' ≡ₚ [8; 3; 3]) /\
    (5 ∉ [8; 3; 3] -> l' ≡ₚ 5 :: [8; 3; 3]).
Proof.
  split; [example_prior|].
  apply (completed_day_is_recorded (request 5) (on_day 739000)
           (store (member 2 2 20) [record 9 [8; 3; 3] None])
           (member 2 2 20) (record 9 [8; 3; 3] None)).
  example_prior.
Defined.

(** X15. A completion touches two documents only.  The number of users does
    not change; every other User document is unchanged; the updated one
    keeps its name, email, avatar, badges and activity flag; every Progress
    record of another pair is unchanged, at the same identifier. *)
Theorem complete_day_frame payload clk w st i u :
  db w = Some st ->
  list_find (by_email (CompletePayload.user_email payload)) (users st) = Some (i, u) ->
  exists resp w' st' u',
    complete_day payload clk w = (Return resp, w') /\
    db w' = Some st' /\
    length (users st') = length (users st) /\
    (forall k, k <> i -> users st' !! k = users st !! k) /\
    users st' !! i = Some u' /\
    name u' = name u /\ email u' = email u /\ avatar_url u' = avatar_url u /\
    badges u' = badges u /\ is_active u' = is_active u /\
    (forall k q,
       prog_col st !! k = Some q ->
       ~ by_pair (CompletePayload.user_email payload)
           (CompletePayload.challenge_slug payload) q ->
       prog_col st' !! k = Some q).
Proof.
  intros Hdb Hu. eexists _, _, _, _.
  split; [by apply complete_day_found|]. split; [done|]. cbn [users prog_col].
  pose proof (list_find_lookup _ _ _ _ Hu) as Hlook.
  split_and!.
  - apply length_alter.
  - intros k Hk. by apply list_lookup_alter_ne.
  - rewrite list_lookup_alter_eq, Hlook. done.
  - done.
  - done.
  - done.
  - done.
  - done.
  - intros k q Hq Hne.
    set (e := CompletePayload.user_email payload) in *.
    set (slug := CompletePayload.challenge_slug payload) in *.
    assert (prior_prog_col st e slug !! k = Some q) as Hq'.
    { unfold prior_prog_col. destruct (list_find (by_pair e slug) (prog_col st));
        [done|by apply lookup_app_l_Some]. }
    rewrite list_lookup_alter_ne; [done|]. intros <-.
    pose proof (prior_progress_lookup payload st) as Hj. fold e slug in Hj.
    rewrite Hq' in Hj. injection Hj as ->.
    apply Hne, prior_progress_pair.
Qed.

Lemma complete_day_frame_witness :
  db bob_store
  = Some {| users := [member 9 9 95; User "Bob" "bob@example.com" None];
            prog_col := [record 3 [1; 2] None;
                         Progress "bob@example.com" "design-foundations"] |} /\
  list_find (by_email "bob@example.com")
    [member 9 9 95; User "Bob" "bob@example.com" None]
  = Some (1%nat, User "Bob" "bob@example.com" None) /\
  exists resp w' st' u',
    complete_day (CompletePayload.mk "bob@example.com" "design-foundations" 1)
      (on_day 739000) bob_store = (Return resp, w') /\
    db w' = Some st' /\
    length (users st') = 2%nat /\
    (forall k, k <> 1%nat ->
       users st' !! k = [member 9 9 95; User "Bob" "bob@example.com" None] !! k) /\
    users st' !! 1%nat = Some u' /\
    name u' = "Bob" /\ email u' = "bob@example.com" /\ avatar_url u' = None /\
    badges u' = [] /\ is_active u' = true /\
    (forall k q,
       [record 3 [1; 2] None; Progress "bob@example.com" "design-foundations"] !! k
       = Some q ->
       ~ by_pair "bob@example.com" "design-foundations" q ->
       prog_col st' !! k = Some q).
Proof.
  split; [reflexivity|]. split; [reflexivity|].
  apply (complete_day_frame
           (CompletePayload.mk "bob@example.com" "design-foundations" 1)
           (on_day 739000) bob_store
           {| users := [member 9 9 95; User "Bob" "bob@example.com" None];
              prog_col := [record 3 [1; 2] None;
                           Progress "bob@example.com" "design-foundations"] |}
           1%nat (User "Bob" "bob@example.com" None));
    reflexivity.
Defined.

(** ** Streaks over several days *)

Lemma prior_of_records payload w u :
  user_record w (CompletePayload.user_email payload) = Some u ->
  prior w payload u
    (default (Progress (CompletePayload.user_email payload)
                (CompletePayload.challenge_slug payload))
       (progress_record w (CompletePayload.user_email payload)
          (CompletePayload.challenge_slug payload))).
Proof.
  intros Hu. destruct (user_record_db _ _ _ Hu) as [st Hdb].
  destruct (user_record_find _ _ _ _ Hdb Hu) as [i Hi].
  exists st, i. split_and!; [done..|]. symmetry. by apply prior_progress_default.
Qed.

(** The two documents of a user and a pair after a completion. *)
Lemma complete_day_records payload clk w u :
  user_record w (CompletePayload.user_email payload) = Some u ->
  let e := CompletePayload.user_email payload in
  let slug := CompletePayload.challenge_slug payload in
  let p := default (Progress e slug) (progress_record w e slug) in
  user_record (complete_day payload clk w).2 e = Some (user_update payload clk u p u) /\
  progress_record (complete_day payload clk w).2 e slug
  = Some (progress_update payload clk p p).
Proof.
  intros Hu e slug p.
  destruct (complete_day_outcome payload clk w u p (prior_of_records _ _ _ Hu))
    as (resp & w' & i & j & Hrun & _ & _ & _ & Hu' & Hp').
  rewrite Hrun. by split.
Qed.

Lemma bonus_count s :
  (if decide ((s + 1) `mod` 5 = 0) then 5 else 0) = 5 * ((s + 1) `div` 5 - s `div` 5).
Proof. case_decide; Z.div_mod_to_equations; lia. Qed.

(** Completions on consecutive days, the first one on the day after the
    last completion: each one adds 1 to the streak. *)
Lemma streak_continues e0 s0 calls :
  forall w u p last d,
    user_record w e0 = Some u ->
    progress_record w e0 s0 = Some p ->
    as_date (last_completed_date p) = Some last ->
    toordinal last = d - 1 ->
    get (streak u) 0 <= get (longest_streak u) 0 ->
    (forall (k : nat) c, calls !! k = Some c ->
       CompletePayload.user_email c.1 = e0 /\
       CompletePayload.challenge_slug c.1 = s0 /\
       toordinal (date_today c.2) = d + Z.of_nat k) ->
    let n := Z.of_nat (length calls) in
    exists u',
      user_record (run calls w) e0 = Some u' /\
      get (streak u') 0 = get (streak u) 0 + n /\
      get (points u') 0
      = get (points u) 0 + 10 * n
        + 5 * ((get (streak u) 0 + n) `div` 5 - get (streak u) 0 `div` 5) /\
      get (longest_streak u') 0 = Z.max (get (longest_streak u) 0) (get (streak u) 0 + n).
Proof.
  induction calls as [|c calls IH]; intros w u p last d Hu Hp Hlast Hd Hle Hcalls n.
  - exists u. subst n. cbn [length Z.of_nat run fold_left].
    change (Z.of_nat 0) with 0. rewrite !Z.add_0_r.
    split_and!; [done|done|lia|lia].
  - destruct (Hcalls 0%nat c eq_refl) as (He & Hs & Hdate).
    destruct c as [payload clk]. cbn [fst snd] in *. subst e0 s0.
    destruct (complete_day_records payload clk w u Hu) as [Hu1 Hp1].
    cbn zeta in Hu1, Hp1. rewrite Hp in Hu1, Hp1.
    cbn [default from_option Datatypes.id] in Hu1, Hp1.
    change (Z.of_nat 0) with 0 in Hdate.
    assert (streak_logic (date_today clk) (as_date (last_completed_date p))
              (get (streak u) 0) = get (streak u) 0 + 1) as Hstreak.
    { rewrite Hlast. unfold streak_logic, days. cbn zeta.
      rewrite decide_True by lia. done. }
    destruct (IH _ _ _ (date_today clk) (d + 1) Hu1 Hp1) as (u' & Hu' & Hs' & Hp' & Hl').
    + done.
    + lia.
    + change (get (streak (user_update payload clk u p u)) 0)
        with (streak_logic (date_today clk) (as_date (last_completed_date p))
                (get (streak u) 0)).
      change (get (longest_streak (user_update payload clk u p u)) 0)
        with (Z.max (get (longest_streak u) 0)
                (streak_logic (date_today clk) (as_date (last_completed_date p))
                   (get (streak u) 0))).
      lia.
    + intros k c Hk. destruct (Hcalls (S k) c Hk) as (? & ? & ?).
      split_and!; [done..|lia].
    + exists u'. rewrite run_cons. cbn [fst snd]. split; [done|].
      change (get (streak (user_update payload clk u p u)) 0)
        with (streak_logic (date_today clk) (as_date (last_completed_date p))
                (get (streak u) 0)) in *.
      change (get (longest_streak (user_update payload clk u p u)) 0)
        with (Z.max (get (longest_streak u) 0)
                (streak_logic (date_today clk) (as_date (last_completed_date p))
                   (get (streak u) 0))) in *.
      change (get (points (user_update payload clk u p u)) 0)
        with (points_logic (get (points u) 0)
                (streak_logic (date_today clk) (as_date (last_completed_date p))
                   (get (streak u) 0))) in *.
      rewrite Hstreak in *. subst n. cbn [length].
      rewrite Nat2Z.inj_succ.
      unfold points_logic in Hp'.
      pose proof (bonus_count (get (streak u) 0)) as Hb.
      replace (get (streak u) 0 + Z.succ (Z.of_nat (length calls)))
        with (get (streak u) 0 + 1 + Z.of_nat (length calls)) by lia.
      split_and!; [lia| |lia].
      rewrite Hp'. destruct (decide ((get (streak u) 0 + 1) `mod` 5 = 0)); lia.
Qed.

(** X16. A streak is built one day at a time.  When a user makes [n >= 1]
    completions in a challenge, one per day on consecutive days, starting
    where the Progress record of the pair has no completion date yet, the
    streak ends at [n], the longest streak at the maximum of [n] and its
    previous value, and the points have grown by 10 per completion plus 5
    for every fifth day: [10 * n + 5 * (n / 5)]. *)
Theorem daily_completions e0 s0 calls w u d :
  user_record w e0 = Some u ->
  (forall p, progress_record w e0 s0 = Some p ->
     as_date (last_completed_date p) = None) ->
  (forall (k : nat) c, calls !! k = Some c ->
     CompletePayload.user_email c.1 = e0 /\
     CompletePayload.challenge_slug c.1 = s0 /\
     toordinal (date_today c.2) = d + Z.of_nat k) ->
  (0 < length calls)%nat ->
  let n := Z.of_nat (length calls) in
  exists u',
    user_record (run calls w) e0 = Some u' /\
    get (streak u') 0 = n /\
    get (longest_streak u') 0 = Z.max (get (longest_streak u) 0) n /\
    get (points u') 0 = get (points u) 0 + 10 * n + 5 * (n `div` 5).
Proof.
  intros Hu Hfresh Hcalls Hpos n.
  destruct calls as [|[payload clk] calls]; [simpl in Hpos; lia|].
  destruct (Hcalls 0%nat _ eq_refl) as (He & Hs & Hdate). cbn [fst snd] in *.
  change (Z.of_nat 0) with 0 in Hdate. subst e0 s0.
  destruct (complete_day_records payload clk w u Hu) as [Hu1 Hp1].
  cbn zeta in Hu1, Hp1.
  set (p := default _ _) in Hu1, Hp1.
  assert (as_date (last_completed_date p) = None) as Hlast.
  { subst p. destruct (progress_record w _ _) as [q|] eqn:Hq; [by apply Hfresh|done]. }
  destruct (streak_continues _ _ calls _ _ _ (date_today clk) (d + 1) Hu1 Hp1)
    as (u' & Hu' & Hs' & Hp' & Hl').
  - done.
  - lia.
  - change (get (streak (user_update payload clk u p u)) 0)
      with (streak_logic (date_today clk) (as_date (last_completed_date p))
              (get (streak u) 0)).
    change (get (longest_streak (user_update payload clk u p u)) 0)
      with (Z.max (get (longest_streak u) 0)
              (streak_logic (date_today clk) (as_date (last_completed_date p))
                 (get (streak u) 0))).
    lia.
  - intros k c Hk. destruct (Hcalls (S k) c Hk) as (? & ? & ?).
    split_and!; [done..|lia].
  - exists u'. rewrite run_cons. cbn [fst snd]. split; [done|].
    change (get (streak (user_update payload clk u p u)) 0)
      with (streak_logic (date_today clk) (as_date (last_completed_date p))
              (get (streak u) 0)) in *.
    change (get (longest_streak (user_update payload clk u p u)) 0)
      with (Z.max (get (longest_streak u) 0)
              (streak_logic (date_today clk) (as_date (last_completed_date p))
                 (get (streak u) 0))) in *.
    change (get (points (user_update payload clk u p u)) 0)
      with (points_logic (get (points u) 0)
              (streak_logic (date_today clk) (as_date (last_completed_date p))
                 (get (streak u) 0))) in *.
    rewrite Hlast in *. cbn [streak_logic] in *.
    change (points_logic (get (points u) 0) 1) with (get (points u) 0 + 10) in Hp'.
    change (1 `div` 5) with 0 in Hp'.
    subst n. cbn [length]. rewrite Nat2Z.inj_succ.
    replace (Z.succ (Z.of_nat (length calls))) with (1 + Z.of_nat (length calls)) by lia.
    split_and!; lia.
Qed.

Lemma daily_completions_witness :
  user_record (store (User "Alice" "alice@example.com" None) []) "alice@example.com"
  = Some (User "Alice" "alice@example.com" None) /\
  (0 < length [(request 1, on_day 739000); (request 2, on_day 739001);
               (request 3, on_day 739002); (request 4, on_day 739003);
               (request 5, on_day 739004); (request 6, on_day 739005)])%nat /\
  exists u',
    user_record
      (run [(request 1, on_day 739000); (request 2, on_day 739001);
            (request 3, on_day 739002); (request 4, on_day 739003);
            (request 5, on_day 739004); (request 6, on_day 739005)]
         (store (User "Alice" "alice@example.com" None) []))
      "alice@example.com" = Some u' /\
    get (streak u') 0 = 6 /\
    get (longest_streak u') 0 = Z.max 0 6 /\
    get (points u') 0 = 0 + 10 * 6 + 5 * (6 `div` 5).
Proof.
  split; [reflexivity|]. split; [simpl; lia|].
  apply (daily_completions "alice@example.com" "ai-productivity"
           [(request 1, on_day 739000); (request 2, on_day 739001);
            (request 3, on_day 739002); (request 4, on_day 739003);
            (request 5, on_day 739004); (request 6, on_day 739005)]
           (store (User "Alice" "alice@example.com" None) [])
           (User "Alice" "alice@example.com" None) 739000).
  - reflexivity.
  - intros p Hp. vm_compute in Hp. discriminate.
  - intros k c Hk.
    repeat (destruct k as [|k]; [injection Hk as <-; split_and!; reflexivity|]).
    discriminate.
  - simpl; lia.
Defined.

(** X17. The streak belongs to the user, the last completion date to the
    challenge.  When a user completes a day in one challenge and then a day
    in another challenge whose record has no completion date yet, the second
    completion sets the streak to 1, whatever the dates of the two calls and
    whatever the streak had reached. *)
Theorem new_challenge_resets_streak payload1 clk1 payload2 clk2 w u :
  user_record w (CompletePayload.user_email payload1) = Some u ->
  CompletePayload.user_email payload2 = CompletePayload.user_email payload1 ->
  CompletePayload.challenge_slug payload2 <> CompletePayload.challenge_slug payload1 ->
  (forall p,
     progress_record w (CompletePayload.user_email payload2)
       (CompletePayload.challenge_slug payload2) = Some p ->
     as_date (last_completed_date p) = None) ->
  exists u1 u2,
    user_record (run [(payload1, clk1)] w) (CompletePayload.user_email payload1)
    = Some u1 /\
    user_record (run [(payload1, clk1); (payload2, clk2)] w)
      (CompletePayload.user_email payload1) = Some u2 /\
    streak u2 = Some 1 /\
    longest_streak u2 = Some (Z.max (get (longest_streak u1) 0) 1).
Proof.
  intros Hu He Hslug Hfresh.
  destruct (complete_day_records payload1 clk1 w u Hu) as [Hu1 _].
  cbn zeta in Hu1.
  set (w1 := (complete_day payload1 clk1 w).2) in *.
  assert (progress_record w1 (CompletePayload.user_email payload2)
            (CompletePayload.challenge_slug payload2)
          = progress_record w (CompletePayload.user_email payload2)
              (CompletePayload.challenge_slug payload2)) as Hsame.
  { destruct (progress_record_step payload1 clk1 w
                (CompletePayload.user_email payload2)
                (CompletePayload.challenge_slug payload2)) as [Heq|(_ & Hs & _)];
      [done|by destruct Hslug]. }
  rewrite <- He in Hu1.
  destruct (complete_day_records payload2 clk2 w1 _ Hu1) as [Hu2 _].
  cbn zeta in Hu2. rewrite Hsame in Hu2.
  set (p2 := default (Progress _ (CompletePayload.challenge_slug payload2)) _) in Hu2.
  assert (as_date (last_completed_date p2) = None) as Hlast.
  { subst p2. destruct (progress_record w _ _) as [q|] eqn:Hq; simpl;
      [exact (Hfresh q eq_refl)|done]. }
  rewrite He in Hu1, Hu2.
  eexists _, _. split; [exact Hu1|]. split; [exact Hu2|].
  cbn [user_update set_user streak longest_streak]. rewrite Hlast.
  split; reflexivity.
Qed.

Lemma new_challenge_resets_streak_witness :
  user_record (store (member 7 7 75) [record 8 [1; 2; 3; 4; 5; 6; 7] (Some (mkdate 738999))])
    "alice@example.com" = Some (member 7 7 75) /\
  "design-foundations" <> "ai-productivity" /\
  exists u1 u2,
    user_record
      (run [(request 8, on_day 739000)]
         (store (member 7 7 75)
            [record 8 [1; 2; 3; 4; 5; 6; 7] (Some (mkdate 738999))]))
      "alice@example.com" = Some u1 /\
    user_record
      (run [(request 8, on_day 739000);
            (CompletePayload.mk "alice@example.com" "design-foundations" 1,
             on_day 739000)]
         (store (member 7 7 75)
            [record 8 [1; 2; 3; 4; 5; 6; 7] (Some (mkdate 738999))]))
      "alice@example.com" = Some u2 /\
    streak u2 = Some 1 /\
    longest_streak u2 = Some (Z.max (get (longest_streak u1) 0) 1).
Proof.
  split; [reflexivity|]. split; [discriminate|].
  apply (new_challenge_resets_streak (request 8) (on_day 739000)
           (CompletePayload.mk "alice@example.com" "design-foundations" 1)
           (on_day 739000)
           (store (member 7 7 75)
              [record 8 [1; 2; 3; 4; 5; 6; 7] (Some (mkdate 738999))])
           (member 7 7 75)).
  - reflexivity.
  - reflexivity.
  - discriminate.
  - intros p Hp. vm_compute in Hp. discriminate.
Defined.

(** * The catalogue and the chat log *)

(** Runs the store operations of a goal on the catalogue. *)
Ltac run_catalog :=
  cbn beta iota zeta delta
    [Catalog.bind Catalog._collection Catalog.find_one Catalog.create_document
     Catalog.get_documents Catalog.ret Catalog.raise Catalog.try_pass
     Catalog.for_each Catalog.validated Catalog.validated_all
     Catalog.db Catalog.writes Catalog.docs Catalog.with_docs Catalog.collection
     Catalog.challenge_collection Catalog.lesson_collection
     Catalog.message_collection
     Catalog.challenge Catalog.lesson Catalog.message].

(** ** Creating a challenge *)

Lemma create_challenge_not_configured payload w :
  Catalog.db w = None ->
  Catalog.create_challenge payload w = (Raise not_configured, w).
Proof.
  intros Hdb. destruct w as [d ws]; simpl in Hdb; subst d.
  unfold Catalog.create_challenge. by run_catalog.
Qed.

Lemma create_challenge_exists payload w st i c :
  Catalog.db w = Some st ->
  list_find (Catalog.by_slug (Catalog.CreateChallenge.slug payload))
    (Catalog.challenge st) = Some (i, c) ->
  Catalog.create_challenge payload w = (Raise Catalog.slug_exists, w).
Proof.
  intros Hdb Hc. destruct w as [d ws]; simpl in Hdb; subst d.
  unfold Catalog.create_challenge. run_catalog. rewrite Hc. by run_catalog.
Qed.

Lemma create_challenge_invalid payload w st :
  Catalog.db w = Some st ->
  list_find (Catalog.by_slug (Catalog.CreateChallenge.slug payload))
    (Catalog.challenge st) = None ->
  ~ 1 <= Catalog.CreateChallenge.days payload <= 60 ->
  Catalog.create_challenge payload w = (Raise internal_server_error, w).
Proof.
  intros Hdb Hc Hdays. destruct w as [d ws]; simpl in Hdb; subst d.
  unfold Catalog.create_challenge. run_catalog. rewrite Hc.
  unfold Catalog.Challenge. rewrite decide_False by done. by run_catalog.
Qed.

Lemma create_challenge_new payload w st :
  Catalog.db w = Some st ->
  list_find (Catalog.by_slug (Catalog.CreateChallenge.slug payload))
    (Catalog.challenge st) = None ->
  1 <= Catalog.CreateChallenge.days payload <= 60 ->
  Catalog.create_challenge payload w
  = (Return true,
     {| Catalog.db :=
          Some {| Catalog.challenge := Catalog.challenge st ++ [challenge_of payload];
                  Catalog.lesson := Catalog.lesson st;
                  Catalog.message := Catalog.message st |};
        Catalog.writes :=
          Catalog.writes w ++ [InsertOne "challenge" (length (Catalog.challenge st))] |}).
Proof.
  intros Hdb Hc Hdays. destruct w as [d ws]; simpl in Hdb; subst d.
  unfold Catalog.create_challenge. run_catalog. rewrite Hc.
  unfold Catalog.Challenge. rewrite decide_True by done. by run_catalog.
Qed.

Lemma slug_taken_find s (l : list Catalog.challenge_doc) :
  s ∈ Catalog.slug <$> l <-> exists i c, list_find (Catalog.by_slug s) l = Some (i, c).
Proof.
  split.
  - intros (c & -> & Hc)%list_elem_of_fmap.
    destruct (list_find_elem_of (Catalog.by_slug (Catalog.slug c)) l c Hc eq_refl)
      as [[i c'] Hfind].
    eauto.
  - intros (i & c & (Hc & Hs & _)%list_find_Some).
    apply list_elem_of_fmap. exists c. split; [done|].
    by eapply list_elem_of_lookup_2.
Qed.

(** X18. Creating a challenge succeeds exactly when the slug is free and the
    number of days is between 1 and 60.  A request that fails leaves the
    store as it is, and it fails with status 400 exactly when the slug is
    taken, whatever the number of days (the slug is checked first). *)
Theorem create_challenge_succeeds_iff payload w st :
  Catalog.db w = Some st ->
  ((exists w', Catalog.create_challenge payload w = (Return true, w')) <->
   (Catalog.CreateChallenge.slug payload ∉ Catalog.slug <$> Catalog.challenge st) /\
   1 <= Catalog.CreateChallenge.days payload <= 60) /\
  (forall exn w',
     Catalog.create_challenge payload w = (Raise exn, w') ->
     w' = w /\
     (status_code exn = 400 <->
      Catalog.CreateChallenge.slug payload ∈ Catalog.slug <$> Catalog.challenge st)).
Proof.
  intros Hdb.
  destruct (list_find (Catalog.by_slug (Catalog.CreateChallenge.slug payload))
              (Catalog.challenge st)) as [[i c]|] eqn:Hc.
  - assert (Catalog.CreateChallenge.slug payload ∈ Catalog.slug <$> Catalog.challenge st)
      as Hin by (apply slug_taken_find; eauto).
    rewrite (create_challenge_exists _ _ _ _ _ Hdb Hc). split.
    + split; [by intros [w' ?]|by intros [? _]].
    + intros exn w' [= <- <-]. by split.
  - assert (Catalog.CreateChallenge.slug payload ∉ Catalog.slug <$> Catalog.challenge st)
      as Hnot.
    { intros (i & c & Hfind)%slug_taken_find. by rewrite Hfind in Hc. }
    destruct (decide (1 <= Catalog.CreateChallenge.days payload <= 60)) as [Hdays|Hdays].
    + rewrite (create_challenge_new _ _ _ Hdb Hc Hdays). split.
      * split; [done|]. intros _. by eexists.
      * by intros exn w' [=].
    + rewrite (create_challenge_invalid _ _ _ Hdb Hc Hdays). split.
      * split; [by intros [w' ?]|by intros [_ ?]].
      * intros exn w' [= <- <-]. split; [done|]. by split.
Qed.

Lemma create_challenge_succeeds_iff_witness :
  Catalog.db Catalog.empty_store
  = Some {| Catalog.challenge := []; Catalog.lesson := []; Catalog.message := [] |} /\
  ((exists w',
      Catalog.create_challenge
        (Catalog.CreateChallenge.mk "Rocq in 30 Days" "rocq" "Proofs" "Beginner"
           "One tactic a day." None 30)
        Catalog.empty_store = (Return true, w')) <->
   ("rocq" ∉ Catalog.slug <$> []) /\ 1 <= 30 <= 60) /\
  (forall exn w',
     Catalog.create_challenge
       (Catalog.CreateChallenge.mk "Rocq in 30 Days" "rocq" "Proofs" "Beginner"
          "One tactic a day." None 30)
       Catalog.empty_store = (Raise exn, w') ->
     w' = Catalog.empty_store /\
     (status_code exn = 400 <-> "rocq" ∈ Catalog.slug <$> [])).
Proof.
  split; [reflexivity|].
  apply (create_challenge_succeeds_iff
           (Catalog.CreateChallenge.mk "Rocq in 30 Days" "rocq" "Proofs" "Beginner"
              "One tactic a day." None 30)
           Catalog.empty_store
           {| Catalog.challenge := []; Catalog.lesson := []; Catalog.message := [] |}).
  reflexivity.
Defined.

(** X19. A challenge that is created is stored as the payload gives it: one
    document is inserted after the existing ones, with the seven fields of
    the payload; it is the challenge found for its slug from then on; the
    lessons and the messages are untouched and nothing else is written. *)
Theorem create_challenge_stores_payload payload w st :
  Catalog.db w = Some st ->
  Catalog.CreateChallenge.slug payload ∉ Catalog.slug <$> Catalog.challenge st ->
  1 <= Catalog.CreateChallenge.days payload <= 60 ->
  exists c w' st',
    Catalog.create_challenge payload w = (Return true, w') /\
    Catalog.db w' = Some st' /\
    Catalog.challenge st' = Catalog.challenge st ++ [c] /\
    Catalog.lesson st' = Catalog.lesson st /\
    Catalog.message st' = Catalog.message st /\
    Catalog.writes w'
    = Catalog.writes w ++ [InsertOne "challenge" (length (Catalog.challenge st))] /\
    list_find (Catalog.by_slug (Catalog.CreateChallenge.slug payload))
      (Catalog.challenge st') = Some (length (Catalog.challenge st), c) /\
    Catalog.title c = Catalog.CreateChallenge.title payload /\
    Catalog.slug c = Catalog.CreateChallenge.slug payload /\
    Catalog.category c = Catalog.CreateChallenge.category payload /\
    Catalog.difficulty c = Catalog.CreateChallenge.difficulty payload /\
    Catalog.description c = Catalog.CreateChallenge.description payload /\
    Catalog.cover_image c = Catalog.CreateChallenge.cover_image payload /\
    Catalog.days c = Catalog.CreateChallenge.days payload.
Proof.
  intros Hdb Hfree Hdays.
  assert (list_find (Catalog.by_slug (Catalog.CreateChallenge.slug payload))
            (Catalog.challenge st) = None) as Hc.
  { destruct (list_find _ _) as [[i c]|] eqn:Hc; [|done].
    destruct Hfree. apply slug_taken_find. eauto. }
  eexists _, _, _. split; [by apply create_challenge_new|].
  cbn [Catalog.db Catalog.challenge Catalog.lesson Catalog.message Catalog.writes].
  split_and!; try done.
  by apply list_find_snoc_None.
Qed.

Lemma create_challenge_stores_payload_witness :
  Catalog.db Catalog.empty_store
  = Some {| Catalog.challenge := []; Catalog.lesson := []; Catalog.message := [] |} /\
  ("rocq" ∉ Catalog.slug <$> []) /\
  1 <= 30 <= 60 /\
  exists c w' st',
    Catalog.create_challenge
      (Catalog.CreateChallenge.mk "Rocq in 30 Days" "rocq" "Proofs" "Beginner"
         "One tactic a day." None 30)
      Catalog.empty_store = (Return true, w') /\
    Catalog.db w' = Some st' /\
    Catalog.challenge st' = [] ++ [c] /\
    Catalog.lesson st' = [] /\
    Catalog.message st' = [] /\
    Catalog.writes w' = [] ++ [InsertOne "challenge" 0] /\
    list_find (Catalog.by_slug "rocq") (Catalog.challenge st') = Some (0%nat, c) /\
    Catalog.title c = "Rocq in 30 Days" /\
    Catalog.slug c = "rocq" /\
    Catalog.category c = "Proofs" /\
    Catalog.difficulty c = "Beginner" /\
    Catalog.description c = "One tactic a day." /\
    Catalog.cover_image c = None /\
    Catalog.days c = 30.
Proof.
  assert ("rocq" ∉ Catalog.slug <$> []) as Hfree by (simpl; apply not_elem_of_nil).
  split; [reflexivity|]. split; [exact Hfree|]. split; [lia|].
  apply (create_challenge_stores_payload
           (Catalog.CreateChallenge.mk "Rocq in 30 Days" "rocq" "Proofs" "Beginner"
              "One tactic a day." None 30)
           Catalog.empty_store
           {| Catalog.challenge := []; Catalog.lesson := []; Catalog.message := [] |});
    [reflexivity|exact Hfree|simpl; lia].
Defined.

(** ** Lessons *)

Lemma string_length_app (s t : string) :
  String.length (s +:+ t) = (String.length s + String.length t)%nat.
Proof. induction s as [|a s IH]; simpl; [done|]. by rewrite IH. Qed.

Lemma string_app_inj_r (s1 s2 t : string) : s1 +:+ t = s2 +:+ t -> s1 = s2.
Proof.
  revert s2. induction s1 as [|a s1 IH]; intros [|b s2] H; simpl in H.
  - done.
  - apply (f_equal String.length) in H.
    rewrite !string_length_app in H. simpl in H. lia.
  - apply (f_equal String.length) in H.
    rewrite !string_length_app in H. simpl in H. lia.
  - injection H as -> H. f_equal. by apply IH.
Qed.

Lemma get_lesson_not_configured slug day w :
  Catalog.db w = None -> Catalog.get_lesson slug day w = (Raise not_configured, w).
Proof.
  intros Hdb. destruct w as [d ws]; simpl in Hdb; subst d.
  unfold Catalog.get_lesson. by run_catalog.
Qed.

Lemma get_lesson_found slug day w st i l :
  Catalog.db w = Some st ->
  list_find (Catalog.by_slug_day slug day) (Catalog.lesson st) = Some (i, l) ->
  Catalog.get_lesson slug day w = (Return (true, Some {| id := i; fields := l |}), w).
Proof.
  intros Hdb Hl. destruct w as [d ws]; simpl in Hdb; subst d.
  unfold Catalog.get_lesson. run_catalog. rewrite Hl. by run_catalog.
Qed.

Lemma get_lesson_invalid slug day w st :
  Catalog.db w = Some st ->
  list_find (Catalog.by_slug_day slug day) (Catalog.lesson st) = None ->
  ~ 1 <= day <= 60 ->
  Catalog.get_lesson slug day w = (Raise internal_server_error, w).
Proof.
  intros Hdb Hl Hday. destruct w as [d ws]; simpl in Hdb; subst d.
  unfold Catalog.get_lesson. run_catalog. rewrite Hl.
  unfold Catalog.Lesson. rewrite decide_False by done. by run_catalog.
Qed.

Lemma get_lesson_new slug day w st :
  Catalog.db w = Some st ->
  list_find (Catalog.by_slug_day slug day) (Catalog.lesson st) = None ->
  1 <= day <= 60 ->
  Catalog.get_lesson slug day w
  = (Return (true, Some {| id := length (Catalog.lesson st);
                           fields := placeholder slug day |}),
     {| Catalog.db :=
          Some {| Catalog.challenge := Catalog.challenge st;
                  Catalog.lesson := Catalog.lesson st ++ [placeholder slug day];
                  Catalog.message := Catalog.message st |};
        Catalog.writes :=
          Catalog.writes w ++ [InsertOne "lesson" (length (Catalog.lesson st))] |}).
Proof.
  intros Hdb Hl Hday. destruct w as [d ws]; simpl in Hdb; subst d.
  unfold Catalog.get_lesson. run_catalog. rewrite Hl.
  unfold Catalog.Lesson. rewrite decide_True by done. run_catalog.
  fold (placeholder slug day).
  by rewrite (list_find_snoc_None (Catalog.by_slug_day slug day)).
Qed.

(** X20. Reading a lesson is idempotent: a second [get_lesson] for the same
    challenge and day gives the same answer as the first (the same lesson, or
    the same failure) and changes nothing more, whatever the store. *)
Theorem get_lesson_idempotent slug day w :
  Catalog.get_lesson slug day (Catalog.get_lesson slug day w).2
  = Catalog.get_lesson slug day w.
Proof.
  destruct (Catalog.db w) as [st|] eqn:Hdb.
  - destruct (list_find (Catalog.by_slug_day slug day) (Catalog.lesson st))
      as [[i l]|] eqn:Hl.
    + rewrite (get_lesson_found _ _ _ _ _ _ Hdb Hl). cbn [snd].
      by eapply get_lesson_found.
    + destruct (decide (1 <= day <= 60)) as [Hday|Hday].
      * rewrite (get_lesson_new _ _ _ _ Hdb Hl Hday). cbn [snd].
        eapply get_lesson_found; [reflexivity|]. cbn [Catalog.lesson].
        by apply list_find_snoc_None.
      * rewrite (get_lesson_invalid _ _ _ _ Hdb Hl Hday). cbn [snd].
        by eapply get_lesson_invalid.
  - rewrite (get_lesson_not_configured _ _ _ Hdb). cbn [snd].
    by apply get_lesson_not_configured.
Qed.

(** X21. [get_lesson] answers with a lesson exactly when one is stored for
    the challenge and the day, or the day is between 1 and 60 (a placeholder
    is then created, whether or not the challenge exists).  When it fails,
    the store is left as it is. *)
Theorem get_lesson_succeeds_iff slug day w st :
  Catalog.db w = Some st ->
  ((exists l w', Catalog.get_lesson slug day w = (Return (true, Some l), w')) <->
   (slug, day) ∈ Catalog.key_of <$> Catalog.lesson st \/ 1 <= day <= 60) /\
  (forall exn w', Catalog.get_lesson slug day w = (Raise exn, w') -> w' = w).
Proof.
  intros Hdb.
  destruct (list_find (Catalog.by_slug_day slug day) (Catalog.lesson st))
    as [[i l]|] eqn:Hl.
  - rewrite (get_lesson_found _ _ _ _ _ _ Hdb Hl). split; [|by intros exn w' [=]].
    split; [|intros _; by eexists _, _]. intros _. left.
    apply list_find_Some in Hl as (Hl & [Hs Hd] & _).
    apply list_elem_of_fmap. exists l. split; [|by eapply list_elem_of_lookup_2].
    unfold Catalog.key_of. by rewrite Hs, Hd.
  - assert ((slug, day) ∉ Catalog.key_of <$> Catalog.lesson st) as Hnot.
    { intros (l & Hk & Hin)%list_elem_of_fmap.
      apply list_find_None in Hl. rewrite Forall_forall in Hl.
      apply (Hl l Hin). unfold Catalog.key_of in Hk. by simplify_eq. }
    destruct (decide (1 <= day <= 60)) as [Hday|Hday].
    + rewrite (get_lesson_new _ _ _ _ Hdb Hl Hday). split; [|by intros exn w' [=]].
      split; [by right|]. intros _. by eexists _, _.
    + rewrite (get_lesson_invalid _ _ _ _ Hdb Hl Hday). split.
      * split; [by intros (? & ? & ?)|by intros [?|?]].
      * by intros exn w' [= <- <-].
Qed.

Lemma get_lesson_succeeds_iff_witness :
  Catalog.db Catalog.empty_store
  = Some {| Catalog.challenge := []; Catalog.lesson := []; Catalog.message := [] |} /\
  ((exists l w',
      Catalog.get_lesson "no-such-challenge" 61 Catalog.empty_store
      = (Return (true, Some l), w')) <->
   ("no-such-challenge", 61) ∈ Catalog.key_of <$> [] \/ 1 <= 61 <= 60) /\
  (forall exn w',
     Catalog.get_lesson "no-such-challenge" 61 Catalog.empty_store = (Raise exn, w') ->
     w' = Catalog.empty_store).
Proof.
  split; [reflexivity|].
  apply (get_lesson_succeeds_iff "no-such-challenge" 61 Catalog.empty_store
           {| Catalog.challenge := []; Catalog.lesson := []; Catalog.message := [] |}).
  reflexivity.
Defined.

(** X22. The placeholder of a lesson.  When no lesson is stored for a
    challenge and a day between 1 and 60, [get_lesson] inserts one document,
    after the existing lessons, and answers with it: it has the slug and the
    day asked for and the title ["Day <day>: Micro-lesson"], and placeholders
    of different days have different titles.  The challenges and the
    messages are untouched. *)
Theorem get_lesson_placeholder slug day w st :
  Catalog.db w = Some st ->
  (slug, day) ∉ Catalog.key_of <$> Catalog.lesson st ->
  1 <= day <= 60 ->
  exists l w' st',
    Catalog.get_lesson slug day w
    = (Return (true, Some {| id := length (Catalog.lesson st); fields := l |}), w') /\
    Catalog.db w' = Some st' /\
    Catalog.lesson st' = Catalog.lesson st ++ [l] /\
    Catalog.challenge st' = Catalog.challenge st /\
    Catalog.message st' = Catalog.message st /\
    Catalog.writes w'
    = Catalog.writes w ++ [InsertOne "lesson" (length (Catalog.lesson st))] /\
    Catalog.challenge_slug l = slug /\
    Catalog.day l = day /\
    Catalog.lesson_title l = "Day " +:+ pretty day +:+ ": Micro-lesson" /\
    (forall day', Catalog.demo_title day' = Catalog.lesson_title l -> day' = day).
Proof.
  intros Hdb Hfree Hday.
  assert (list_find (Catalog.by_slug_day slug day) (Catalog.lesson st) = None) as Hl.
  { destruct (list_find _ _) as [[i l]|] eqn:Hl; [|done]. destruct Hfree.
    apply list_find_Some in Hl as (Hl & [Hs Hd] & _).
    apply list_elem_of_fmap. exists l. split; [|by eapply list_elem_of_lookup_2].
    unfold Catalog.key_of. by rewrite Hs, Hd. }
  eexists _, _, _. split; [by apply get_lesson_new|].
  cbn [Catalog.db Catalog.challenge Catalog.lesson Catalog.message Catalog.writes].
  split_and!; try done.
  intros day' Htitle. cbn [placeholder Catalog.lesson_title] in Htitle.
  unfold Catalog.demo_title in Htitle.
  apply (inj (String.append "Day ")) in Htitle.
  apply string_app_inj_r in Htitle.
  by apply (inj pretty) in Htitle.
Qed.

Lemma get_lesson_placeholder_witness :
  Catalog.db Catalog.empty_store
  = Some {| Catalog.challenge := []; Catalog.lesson := []; Catalog.message := [] |} /\
  (("ai-productivity", 12) ∉ Catalog.key_of <$> []) /\
  1 <= 12 <= 60 /\
  exists l w' st',
    Catalog.get_lesson "ai-productivity" 12 Catalog.empty_store
    = (Return (true, Some {| id := 0; fields := l |}), w') /\
    Catalog.db w' = Some st' /\
    Catalog.lesson st' = [] ++ [l] /\
    Catalog.challenge st' = [] /\
    Catalog.message st' = [] /\
    Catalog.writes w' = [] ++ [InsertOne "lesson" 0] /\
    Catalog.challenge_slug l = "ai-productivity" /\
    Catalog.day l = 12 /\
    Catalog.lesson_title l = "Day " +:+ pretty 12 +:+ ": Micro-lesson" /\
    (forall day', Catalog.demo_title day' = Catalog.lesson_title l -> day' = 12).
Proof.
  assert (("ai-productivity", 12) ∉ Catalog.key_of <$> []) as Hfree
    by (simpl; apply not_elem_of_nil).
  split; [reflexivity|]. split; [exact Hfree|]. split; [lia|].
  apply (get_lesson_placeholder "ai-productivity" 12 Catalog.empty_store
           {| Catalog.challenge := []; Catalog.lesson := []; Catalog.message := [] |});
    [reflexivity|exact Hfree|lia].
Defined.

(** ** The list of challenges *)

Lemma sanitize_all_fmap {D} (items : list (nat * D)) :
  Catalog.sanitize_all items = (fun i => {| id := i.1; fields := i.2 |}) <$> items.
Proof.
  unfold Catalog.sanitize_all. induction items as [|[i d] items IH]; [done|].
  csimpl. f_equal. exact IH.
Qed.

Lemma imap_pair_fst {D} (l : list D) : fst <$> imap pair l = seq 0 (length l).
Proof.
  apply list_eq. intros k. rewrite list_lookup_fmap, list_lookup_imap.
  destruct (l !! k) as [x|] eqn:Hk; cbn [fmap option_fmap option_map fst]; symmetry.
  - apply lookup_seq. split; [done|]. by eapply lookup_lt_Some.
  - apply lookup_seq_ge. by apply lookup_ge_None.
Qed.

Lemma imap_pair_snd {D} (l : list D) : snd <$> imap pair l = l.
Proof.
  apply list_eq. intros k. rewrite list_lookup_fmap, list_lookup_imap.
  by destruct (l !! k).
Qed.

Lemma list_challenges_not_configured w :
  Catalog.db w = None -> Catalog.list_challenges w = (Raise not_configured, w).
Proof.
  intros Hdb. destruct w as [d ws]; simpl in Hdb; subst d.
  unfold Catalog.list_challenges. by run_catalog.
Qed.

Lemma list_challenges_stored w st :
  Catalog.db w = Some st ->
  Catalog.challenge st <> [] ->
  Catalog.list_challenges w
  = (Return (true, Catalog.sanitize_all (imap pair (Catalog.challenge st))), w).
Proof.
  intros Hdb Hne. destruct w as [d ws]; simpl in Hdb; subst d.
  unfold Catalog.list_challenges. run_catalog.
  destruct (Catalog.challenge st) as [|c l]; [done|]. by run_catalog.
Qed.

(** The two demo challenges, as they are stored. *)
Lemma demo_models :
  Catalog.demo
  = [Some {| Catalog.title := "AI Productivity in 30 Days";
             Catalog.slug := "ai-productivity"; Catalog.category := "AI";
             Catalog.difficulty := "Beginner";
             Catalog.description :=
               "Daily 5–10 min micro-lessons to automate workflows with AI.";
             Catalog.cover_image := None; Catalog.days := 30 |};
     Some {| Catalog.title := "Design Foundations in 30 Days";
             Catalog.slug := "design-foundations"; Catalog.category := "Design";
             Catalog.difficulty := "Beginner";
             Catalog.description :=
               "Master layout, typography, color and components with micro-tasks.";
             Catalog.cover_image := None; Catalog.days := 30 |}].
Proof. reflexivity. Qed.

Lemma list_challenges_empty w st :
  Catalog.db w = Some st ->
  Catalog.challenge st = [] ->
  exists c1 c2,
    Catalog.demo = [Some c1; Some c2] /\
    Catalog.list_challenges w
    = (Return (true, [{| id := 0; fields := c1 |}; {| id := 1; fields := c2 |}]),
       {| Catalog.db :=
            Some {| Catalog.challenge := [c1; c2];
                    Catalog.lesson := Catalog.lesson st;
                    Catalog.message := Catalog.message st |};
          Catalog.writes :=
            Catalog.writes w ++ [InsertOne "challenge" 0; InsertOne "challenge" 1] |}).
Proof.
  intros Hdb Hempty. destruct w as [d ws]; simpl in Hdb; subst d.
  destruct st as [ch le me]. cbn [Catalog.challenge] in Hempty. subst ch.
  eexists _, _. split; [apply demo_models|].
  unfold Catalog.list_challenges, Catalog.bind. simpl.
  by rewrite <- app_assoc.
Qed.

(** X23. The list of challenges seeds an empty catalogue, and only an empty
    one.  With no challenge stored, the two demo challenges
    ([ai-productivity] and [design-foundations], 30 days each) are inserted
    and answered; with at least one challenge stored, nothing is written and
    the answer lists every stored challenge, in order, under its
    identifier. *)
Theorem list_challenges_seeds_when_empty w st :
  Catalog.db w = Some st ->
  exists items w' st',
    Catalog.list_challenges w = (Return (true, items), w') /\
    Catalog.db w' = Some st' /\
    Catalog.lesson st' = Catalog.lesson st /\
    Catalog.message st' = Catalog.message st /\
    fields <$> items = Catalog.challenge st' /\
    id <$> items = seq 0 (length (Catalog.challenge st')) /\
    match Catalog.challenge st with
    | [] =>
        Catalog.slug <$> Catalog.challenge st' = ["ai-productivity"; "design-foundations"] /\
        Catalog.days <$> Catalog.challenge st' = [30; 30] /\
        Catalog.writes w'
        = Catalog.writes w ++ [InsertOne "challenge" 0; InsertOne "challenge" 1]
    | _ :: _ => w' = w
    end.
Proof.
  intros Hdb. destruct (Catalog.challenge st) as [|c l] eqn:Hc.
  - destruct (list_challenges_empty w st Hdb Hc) as (c1 & c2 & Hdemo & Hrun).
    rewrite demo_models in Hdemo. injection Hdemo as <- <-.
    eexists _, _, _. split; [exact Hrun|]. by split_and!.
  - eexists _, w, st. split; [apply list_challenges_stored; [done|by rewrite Hc]|].
    rewrite sanitize_all_fmap, Hc. split_and!; try done.
    + rewrite <- list_fmap_compose. apply imap_pair_snd.
    + rewrite <- list_fmap_compose. apply imap_pair_fst.
Qed.

Lemma list_challenges_seeds_when_empty_witness :
  Catalog.db Catalog.empty_store
  = Some {| Catalog.challenge := []; Catalog.lesson := []; Catalog.message := [] |} /\
  exists items w' st',
    Catalog.list_challenges Catalog.empty_store = (Return (true, items), w') /\
    Catalog.db w' = Some st' /\
    Catalog.lesson st' = [] /\
    Catalog.message st' = [] /\
    fields <$> items = Catalog.challenge st' /\
    id <$> items = seq 0 (length (Catalog.challenge st')) /\
    Catalog.slug <$> Catalog.challenge st' = ["ai-productivity"; "design-foundations"] /\
    Catalog.days <$> Catalog.challenge st' = [30; 30] /\
    Catalog.writes w' = [] ++ [InsertOne "challenge" 0; InsertOne "challenge" 1].
Proof.
  split; [reflexivity|].
  apply (list_challenges_seeds_when_empty Catalog.empty_store
           {| Catalog.challenge := []; Catalog.lesson := []; Catalog.message := [] |}).
  reflexivity.
Defined.

(** X24. Listing the challenges is idempotent: a second request gives the
    same answer as the first and changes nothing more, whatever the store;
    in particular the demo challenges are seeded once. *)
Theorem list_challenges_idempotent w :
  Catalog.list_challenges (Catalog.list_challenges w).2 = Catalog.list_challenges w.
Proof.
  destruct (Catalog.db w) as [st|] eqn:Hdb.
  - destruct (Catalog.challenge st) as [|c l] eqn:Hc.
    + destruct (list_challenges_empty w st Hdb Hc) as (c1 & c2 & _ & Hrun).
      rewrite Hrun. cbn [snd].
      erewrite list_challenges_stored; [|reflexivity|done].
      by rewrite sanitize_all_fmap.
    + rewrite (list_challenges_stored w st Hdb) by (by rewrite Hc). cbn [snd].
      apply list_challenges_stored; [done|by rewrite Hc].
  - rewrite (list_challenges_not_configured _ Hdb). cbn [snd].
    by apply list_challenges_not_configured.
Qed.

(** ** The catalogue stays well formed *)

Lemma no_lesson_not_elem slug day (l : list Catalog.lesson_doc) :
  list_find (Catalog.by_slug_day slug day) l = None ->
  (slug, day) ∉ Catalog.key_of <$> l.
Proof.
  rewrite list_find_None, Forall_forall. intros Hnone Hin.
  apply list_elem_of_fmap in Hin as (x & Hk & Hin). apply (Hnone x Hin).
  unfold Catalog.key_of in Hk. by simplify_eq.
Qed.

Lemma serve_catalog_ok c w st :
  Catalog.db w = Some st ->
  Catalog.catalog_ok st ->
  exists st', Catalog.db (Catalog.serve c w) = Some st' /\ Catalog.catalog_ok st'.
Proof.
  intros Hdb (Hslugs & Hdays & Hkeys & Hday).
  destruct c as [|payload|slug day]; cbn [Catalog.serve].
  - destruct (Catalog.challenge st) as [|c l] eqn:Hc.
    + destruct (list_challenges_empty w st Hdb Hc) as (c1 & c2 & Hdemo & Hrun).
      rewrite demo_models in Hdemo. injection Hdemo as <- <-.
      rewrite Hrun. eexists. split; [done|].
      unfold Catalog.catalog_ok. cbn [Catalog.challenge Catalog.lesson].
      split_and!; [|repeat constructor; simpl; lia|done|done].
      simpl. apply NoDup_cons. split; [|apply NoDup_singleton].
      intros Hin%list_elem_of_singleton. discriminate.
    + rewrite (list_challenges_stored w st Hdb) by (by rewrite Hc).
      exists st. split; [done|]. unfold Catalog.catalog_ok. by rewrite Hc.
  - destruct (list_find (Catalog.by_slug (Catalog.CreateChallenge.slug payload))
                (Catalog.challenge st)) as [[i c]|] eqn:Hc.
    + rewrite (create_challenge_exists _ _ _ _ _ Hdb Hc). by exists st.
    + destruct (decide (1 <= Catalog.CreateChallenge.days payload <= 60))
        as [Hok|Hbad].
      * rewrite (create_challenge_new _ _ _ Hdb Hc Hok). eexists. split; [done|].
        unfold Catalog.catalog_ok. cbn [Catalog.challenge Catalog.lesson].
        split_and!; [| |done|done].
        { rewrite fmap_app. apply NoDup_snoc_fresh; [done|].
          intros (i & c & Hfind)%slug_taken_find.
          cbn [challenge_of Catalog.slug] in Hfind. by rewrite Hfind in Hc. }
        apply Forall_app. split; [done|]. by apply Forall_singleton.
      * rewrite (create_challenge_invalid _ _ _ Hdb Hc Hbad). by exists st.
  - destruct (list_find (Catalog.by_slug_day slug day) (Catalog.lesson st))
      as [[i l]|] eqn:Hl.
    + rewrite (get_lesson_found _ _ _ _ _ _ Hdb Hl). by exists st.
    + destruct (decide (1 <= day <= 60)) as [Hok|Hbad].
      * rewrite (get_lesson_new _ _ _ _ Hdb Hl Hok). eexists. split; [done|].
        unfold Catalog.catalog_ok. cbn [Catalog.challenge Catalog.lesson].
        split_and!; [done|done| |].
        { rewrite fmap_app. apply NoDup_snoc_fresh; [done|].
          by apply no_lesson_not_elem. }
        apply Forall_app. split; [done|]. by apply Forall_singleton.
      * rewrite (get_lesson_invalid _ _ _ _ Hdb Hl Hbad). by exists st.
Qed.

(** X25. The catalogue stays well formed.  In every store reached by any
    sequence of requests to the three endpoints of the catalogue from a
    well-formed one (the empty store, say), no two challenges share a slug,
    no two lessons share a (challenge slug, day) pair, every challenge has
    between 1 and 60 days and every lesson is for a day between 1 and 60. *)
Theorem catalogue_stays_well_formed calls w st :
  Catalog.db w = Some st ->
  Catalog.catalog_ok st ->
  exists st',
    Catalog.db (Catalog.serve_all calls w) = Some st' /\ Catalog.catalog_ok st'.
Proof.
  revert w st. induction calls as [|c calls IH]; intros w st Hdb Hok.
  - by exists st.
  - destruct (serve_catalog_ok c w st Hdb Hok) as (st1 & Hdb1 & Hok1).
    by apply (IH _ st1).
Qed.

Lemma catalogue_stays_well_formed_witness :
  Catalog.db Catalog.empty_store
  = Some {| Catalog.challenge := []; Catalog.lesson := []; Catalog.message := [] |} /\
  Catalog.catalog_ok
    {| Catalog.challenge := []; Catalog.lesson := []; Catalog.message := [] |} /\
  exists st',
    Catalog.db
      (Catalog.serve_all
         [Catalog.PostChallenges
            (Catalog.CreateChallenge.mk "Mine" "ai-productivity" "AI" "Beginner"
               "My own." None 45);
          Catalog.GetChallenges;
          Catalog.PostChallenges
            (Catalog.CreateChallenge.mk "Again" "ai-productivity" "AI" "Beginner"
               "A second one." None 10);
          Catalog.GetLesson "ai-productivity" 3;
          Catalog.GetLesson "ai-productivity" 3;
          Catalog.GetLesson "ai-productivity" 99]
         Catalog.empty_store) = Some st' /\
    Catalog.catalog_ok st'.
Proof.
  assert (Catalog.catalog_ok
            {| Catalog.challenge := []; Catalog.lesson := []; Catalog.message := [] |})
    as Hinit by (split_and!; constructor).
  split; [reflexivity|]. split; [exact Hinit|].
  apply (catalogue_stays_well_formed
           [Catalog.PostChallenges
              (Catalog.CreateChallenge.mk "Mine" "ai-productivity" "AI" "Beginner"
                 "My own." None 45);
            Catalog.GetChallenges;
            Catalog.PostChallenges
              (Catalog.CreateChallenge.mk "Again" "ai-productivity" "AI" "Beginner"
                 "A second one." None 10);
            Catalog.GetLesson "ai-productivity" 3;
            Catalog.GetLesson "ai-productivity" 3;
            Catalog.GetLesson "ai-productivity" 99]
           Catalog.empty_store
           {| Catalog.challenge := []; Catalog.lesson := []; Catalog.message := [] |});
    [reflexivity|exact Hinit].
Defined.

(** ** The chat assistant *)

(** X26. The chat assistant always replies: whatever the store, the request
    returns normally with the canned reply of the message, which does not
    depend on the store.  With a configured store the exchange is appended to
    the chat log, the message of the user as it was sent and then the reply
    of the assistant, by two inserts, and the challenges and lessons are
    untouched; without one, nothing is written and the failure is
    swallowed. *)
Theorem chat_always_replies strip lower req w :
  let reply := Catalog.chat_reply strip lower (Catalog.ChatRequest.message req) in
  exists w',
    Catalog.chat_assistant strip lower req w = (Return (true, reply), w') /\
    match Catalog.db w with
    | None => w' = w
    | Some st =>
        Catalog.db w'
        = Some {| Catalog.challenge := Catalog.challenge st;
                  Catalog.lesson := Catalog.lesson st;
                  Catalog.message :=
                    Catalog.message st
                    ++ [Catalog.Message (Catalog.ChatRequest.user_email req) "user"
                          (Catalog.ChatRequest.message req);
                        Catalog.Message (Catalog.ChatRequest.user_email req)
                          "assistant" reply] |} /\
        Catalog.writes w'
        = Catalog.writes w
          ++ [InsertOne "message" (length (Catalog.message st));
              InsertOne "message" (S (length (Catalog.message st)))]
    end.
Proof.
  intros reply. destruct w as [[st|] ws]; unfold Catalog.chat_assistant; run_catalog.
  - eexists. split; [reflexivity|]. cbn [Catalog.db Catalog.writes].
    rewrite <- !app_assoc, length_app, Nat.add_1_r. done.
  - eexists. split; [reflexivity|done].
Qed.

Lemma prefix_spec k s : String.prefix k s = true <-> exists b, s = k +:+ b.
Proof.
  revert s. induction k as [|a k IH]; intros s; simpl.
  - destruct s; split; eauto.
  - destruct s as [|c s]; simpl.
    + split; [done|by intros [b ?]].
    + destruct (Ascii.ascii_dec a c) as [->|Hne].
      * rewrite IH. split; intros [b Hb]; exists b; [by rewrite Hb|by injection Hb].
      * split; [done|]. intros [b Hb]. by injection Hb as <- _.
Qed.

(** [k in prompt]: [prompt] is some text, [k], and some more text. *)
Lemma occurs_in_spec k s :
  Catalog.occurs_in k s = true <-> exists a b, s = a +:+ k +:+ b.
Proof.
  induction s as [|c s IH]; cbn [Catalog.occurs_in].
  - rewrite orb_false_r, prefix_spec. split.
    + intros [b Hb]. by exists "", b.
    + intros ([|? a] & b & Hab); [by exists b|done].
  - rewrite orb_true_iff, prefix_spec, IH. split.
    + intros [[b Hb]|(a & b & Hab)].
      * by exists "", b.
      * exists (String c a), b. simpl. by rewrite Hab.
    + intros ([|c' a] & b & Hab).
      * left. by exists b.
      * right. simpl in Hab. injection Hab as -> ->. by exists a, b.
Qed.

Lemma mentions_spec (kws : list string) prompt :
  existsb (fun k => Catalog.occurs_in k prompt) kws = true <->
  exists k a b, k ∈ kws /\ prompt = a +:+ k +:+ b.
Proof.
  rewrite existsb_exists. split.
  - intros (k & Hin & (a & b & Hab)%occurs_in_spec).
    exists k, a, b. by rewrite list_elem_of_In.
  - intros (k & a & b & Hin & Hab). exists k. rewrite <- list_elem_of_In.
    split; [done|]. apply occurs_in_spec. eauto.
Qed.

(** X27. The reply is chosen by keyword, on the message stripped and put in
    lower case.  If it contains one of [stuck], [help], [clarify], [explain]
    anywhere (inside a longer word too), the reply is the tip, even when a
    motivation keyword is there as well; otherwise, if it contains one of
    [motivate], [motivation], [remind], [accountability], the reply is the
    motivation; otherwise it is the default reply. *)
Theorem chat_reply_by_keyword strip lower message :
  let prompt := lower (strip message) in
  let mentions (kws : list string) :=
    exists k a b, k ∈ kws /\ prompt = a +:+ k +:+ b in
  let reply := Catalog.chat_reply strip lower message in
  (mentions ["stuck"; "help"; "clarify"; "explain"] -> reply = Catalog.reply_tip) /\
  (~ mentions ["stuck"; "help"; "clarify"; "explain"] ->
   mentions ["motivate"; "motivation"; "remind"; "accountability"] ->
   reply = Catalog.reply_motivation) /\
  (~ mentions ["stuck"; "help"; "clarify"; "explain"] ->
   ~ mentions ["motivate"; "motivation"; "remind"; "accountability"] ->
   reply = Catalog.reply_default).
Proof.
  intros prompt mentions reply. subst reply mentions. unfold Catalog.chat_reply.
  fold prompt.
  destruct (existsb _ ["stuck"; "help"; "clarify"; "explain"]) eqn:Htip.
  - split_and!; [done| |]; intros Hno; destruct Hno; by apply mentions_spec.
  - assert (~ exists k a b, k ∈ ["stuck"; "help"; "clarify"; "explain"] /\
                            prompt = a +:+ k +:+ b) as Hno.
    { intros H%mentions_spec. by rewrite H in Htip. }
    destruct (existsb _ ["motivate"; "motivation"; "remind"; "accountability"]) eqn:Hmot.
    + split_and!; [done|done|]. intros _ Hno'. destruct Hno'. by apply mentions_spec.
    + split_and!; [done| |done]. intros _ H%mentions_spec. by rewrite H in Hmot.
Qed.

Lemma chat_reply_by_keyword_witness :
  (exists k a b,
     k ∈ ["stuck"; "help"; "clarify"; "explain"] /\
     Catalog.ascii_lower "Unhelpful, I need MOTIVATION" = a +:+ k +:+ b) /\
  Catalog.chat_reply (fun s => s) Catalog.ascii_lower "Unhelpful, I need MOTIVATION"
  = Catalog.reply_tip.
Proof.
  assert (exists k a b,
            k ∈ ["stuck"; "help"; "clarify"; "explain"] /\
            Catalog.ascii_lower "Unhelpful, I need MOTIVATION" = a +:+ k +:+ b) as Hm.
  { exists "help", "un", "ful, i need motivation". split; [|reflexivity].
    apply list_elem_of_In. simpl. auto. }
  split; [exact Hm|].
  apply (proj1 (chat_reply_by_keyword (fun s => s) Catalog.ascii_lower
                  "Unhelpful, I need MOTIVATION")).
  exact Hm.
Defined.
